(** * matrix_visualizer.draw_matrix: a shallow embedding and its properties

    The development follows [src/matrix_visualizer.py].  Python values are
    modelled as the code uses them: the matrix is a two-dimensional array
    with an explicit shape, integers are [Z], exceptions are values of
    [exn], and the toolkit state touched by the function (the pyplot figure
    registry, the figure, axes and image objects, the object array
    [image_objects] and the module-level [_figure_cache]) is an explicit
    store threaded through a state-and-exception monad. *)

From stdpp Require Import base option list gmap strings pretty.
From Stdlib Require Import ZArith Lia.

Local Open Scope Z_scope.

(** ** Exceptions and results *)

Inductive exn :=
  | TypeError (msg : string)
  | ValueError (msg : string)
  | NameError (name : string)
  | IndexError (msg : string).

Inductive result (A : Type) :=
  | Ok (a : A)
  | Raise (e : exn).
Arguments Ok {A} a.
Arguments Raise {A} e.

(** ** numpy arrays of dimension two

    A 2-D array keeps its shape even when it has no rows, so the column
    count is a field of its own; [wf_ndarray] says that every row has that
    many entries, which numpy guarantees by construction. *)

Record ndarray (A : Type) := Ndarray {
  arr_rows : list (list A);
  arr_ncols : nat
}.
Arguments Ndarray {A} arr_rows arr_ncols.
Arguments arr_rows {A} _.
Arguments arr_ncols {A} _.

Section Ndarray.
Context {A : Type}.

Definition nrows (a : ndarray A) : nat := length (arr_rows a).

(** [matrix.shape] *)
Definition shape (a : ndarray A) : Z * Z :=
  (Z.of_nat (nrows a), Z.of_nat (arr_ncols a)).

Definition wf_ndarray (a : ndarray A) : Prop :=
  Forall (λ r, length r = arr_ncols a) (arr_rows a).

Global Instance wf_ndarray_dec a : Decision (wf_ndarray a).
Proof. unfold wf_ndarray. apply _. Defined.

(** [a[r, c]] for indices that are not negative. *)
Definition elem (a : ndarray A) (r c : Z) : option A :=
  if (r <? 0) || (c <? 0) then None
  else arr_rows a !! Z.to_nat r ≫= λ row, row !! Z.to_nat c.

(** Python's normalisation of a slice bound against a length: a negative
    bound counts from the end, and every bound is clamped to the
    sequence. *)
Definition slice_bound (len i : Z) : Z :=
  if i <? 0 then Z.max 0 (i + len) else Z.min i len.

Definition slice_len (len : nat) (start stop : Z) : nat :=
  Z.to_nat (slice_bound (Z.of_nat len) stop - slice_bound (Z.of_nat len) start).

(** [l[start:stop]] *)
Definition py_slice {B} (l : list B) (start stop : Z) : list B :=
  take (slice_len (length l) start stop)
       (drop (Z.to_nat (slice_bound (Z.of_nat (length l)) start)) l).

(** [a[r0:r1, c0:c1]] *)
Definition slice2 (a : ndarray A) (r0 r1 c0 c1 : Z) : ndarray A :=
  Ndarray ((λ row, py_slice row c0 c1) <$> py_slice (arr_rows a) r0 r1)
          (slice_len (arr_ncols a) c0 c1).

(** The slice taken for grid cell [(i, j)] at lines 125 and 145:
    [m[i * tile_rows:(i + 1) * tile_rows, j * tile_cols:(j + 1) * tile_cols]]. *)
Definition tile_data (m : ndarray A) (tile_rows tile_cols i j : Z) : ndarray A :=
  slice2 m (i * tile_rows) ((i + 1) * tile_rows)
           (j * tile_cols) ((j + 1) * tile_cols).

(** The tiles in the order the two nested [for] loops visit them. *)
Definition tiles (m : ndarray A) (grid_rows grid_cols : Z) : list (list (ndarray A)) :=
  let tile_rows := Z.of_nat (nrows m) `div` grid_rows in
  let tile_cols := Z.of_nat (arr_ncols m) `div` grid_cols in
  (λ i, (λ j, tile_data m tile_rows tile_cols i j) <$> seqZ 0 grid_cols)
    <$> seqZ 0 grid_rows.

(** Putting tiles back together: side by side within a grid row, then the
    grid rows one under the other. *)
Definition hstack2 (a b : ndarray A) : ndarray A :=
  Ndarray (zip_with app (arr_rows a) (arr_rows b)) (arr_ncols a + arr_ncols b).

Fixpoint hstack (ts : list (ndarray A)) : ndarray A :=
  match ts with
  | [] => Ndarray [] 0
  | [t] => t
  | t :: rest => hstack2 t (hstack rest)
  end.

Definition vstack (ts : list (ndarray A)) : ndarray A :=
  Ndarray (concat (arr_rows <$> ts))
          (match ts with [] => 0%nat | t :: _ => arr_ncols t end).

Definition reassemble (grid : list (list (ndarray A))) : ndarray A :=
  vstack (hstack <$> grid).
End Ndarray.

Definition ndarray_map {A B} (f : A → B) (a : ndarray A) : ndarray B :=
  Ndarray (map (map f) (arr_rows a)) (arr_ncols a).

(** [matrix > 0], elementwise *)
Definition gt0 (m : ndarray Z) : ndarray bool := ndarray_map (λ x, 0 <? x) m.

(** [np.min] and [np.max] over the whole array; numpy raises [ValueError]
    on an array without elements. *)
Definition flat {A} (m : ndarray A) : list A := concat (arr_rows m).

Definition np_min (m : ndarray Z) : result Z :=
  match flat m with
  | [] => Raise (ValueError "zero-size array to reduction operation minimum which has no identity")
  | x :: xs => Ok (foldl Z.min x xs)
  end.

Definition np_max (m : ndarray Z) : result Z :=
  match flat m with
  | [] => Raise (ValueError "zero-size array to reduction operation maximum which has no identity")
  | x :: xs => Ok (foldl Z.max x xs)
  end.

(** ** Objects of the toolkit

    Object identities are natural numbers handed out by an allocator.  A
    figure's number and size never change after creation, so a reference to
    a figure carries them; everything the code mutates lives in the store. *)

Inductive colormap :=
  | ListedColormap (colors : list string)
  | NamedColormap (name : string).

Inductive imdata :=
  | BoolData (a : ndarray bool)
  | NumData (a : ndarray Z).

Record AxesImage := mkImage {
  im_data : imdata;
  im_cmap : colormap;
  im_clim : Z * Z
}.

Record Axes := mkAxes {
  ax_xticks : option (list Z);      (* [None]: automatic ticks *)
  ax_yticks : option (list Z);
  ax_aspect : string;
  ax_images : list nat
}.

Record fig_ref := FigRef {
  fig_id : nat;
  fig_number : Z;
  fig_figsize : positive * positive
}.

(** The tuple [(fig, axes, image_objects)].  [axes] is never written after
    it is built and is kept by value; [image_objects] is written by every
    render and is a reference into the store. *)
Record Handle := mkHandle {
  fig : fig_ref;
  axes : list (list nat);
  image_objects : nat
}.

Abbreviation figure_key_t := (option string * Z * Z * (positive * positive))%type.

Inductive toolkit_call :=
  | TightLayout
  | CanvasDraw (f : nat)
  | FlushEvents (f : nat)
  | Pause.

Record World := mkWorld {
  next_id : nat;
  fignums : list Z;                                  (* [plt.get_fignums()] *)
  suptitles : gmap nat string;                       (* text of [fig._suptitle] *)
  axes_store : gmap nat Axes;
  images : gmap nat AxesImage;
  object_arrays : gmap nat (list (list (option nat)));
  _figure_cache : gmap figure_key_t Handle;
  toolkit_log : list toolkit_call
}.

(** The state when the module has just been imported: line 13 creates an
    empty cache and nothing has been drawn. *)
Definition initial_world : World := mkWorld 0 [] ∅ ∅ ∅ ∅ ∅ [].

Definition set_next_id (n : nat) (w : World) : World :=
  mkWorld n (fignums w) (suptitles w) (axes_store w) (images w)
          (object_arrays w) (_figure_cache w) (toolkit_log w).
Definition set_fignums (l : list Z) (w : World) : World :=
  mkWorld (next_id w) l (suptitles w) (axes_store w) (images w)
          (object_arrays w) (_figure_cache w) (toolkit_log w).
Definition set_suptitles (s : gmap nat string) (w : World) : World :=
  mkWorld (next_id w) (fignums w) s (axes_store w) (images w)
          (object_arrays w) (_figure_cache w) (toolkit_log w).
Definition set_axes_store (s : gmap nat Axes) (w : World) : World :=
  mkWorld (next_id w) (fignums w) (suptitles w) s (images w)
          (object_arrays w) (_figure_cache w) (toolkit_log w).
Definition set_images (s : gmap nat AxesImage) (w : World) : World :=
  mkWorld (next_id w) (fignums w) (suptitles w) (axes_store w) s
          (object_arrays w) (_figure_cache w) (toolkit_log w).
Definition set_object_arrays (s : gmap nat (list (list (option nat)))) (w : World) : World :=
  mkWorld (next_id w) (fignums w) (suptitles w) (axes_store w) (images w)
          s (_figure_cache w) (toolkit_log w).
Definition set_figure_cache (s : gmap figure_key_t Handle) (w : World) : World :=
  mkWorld (next_id w) (fignums w) (suptitles w) (axes_store w) (images w)
          (object_arrays w) s (toolkit_log w).
Definition log_call (c : toolkit_call) (w : World) : World :=
  mkWorld (next_id w) (fignums w) (suptitles w) (axes_store w) (images w)
          (object_arrays w) (_figure_cache w) (toolkit_log w ++ [c]).

(** ** The monad: a store that survives a raised exception *)

Definition M (A : Type) : Type := World → World * result A.

Global Instance M_ret : MRet M := λ A a w, (w, Ok a).
Global Instance M_bind : MBind M := λ A B f m w,
  match m w with
  | (w', Ok a) => f a w'
  | (w', Raise e) => (w', Raise e)
  end.

Definition raise {A} (e : exn) : M A := λ w, (w, Raise e).
Definition lift {A} (r : result A) : M A := λ w, (w, r).
Definition gets {A} (f : World → A) : M A := λ w, (w, Ok (f w)).
Definition modify (f : World → World) : M unit := λ w, (f w, Ok ()).

(** [for x in l: body(x)] *)
Fixpoint for_ {A} (l : list A) (body : A → M unit) : M unit :=
  match l with
  | [] => mret ()
  | x :: l' => body x ;; for_ l' body
  end.

(** [range(n)] *)
Definition range (n : Z) : list Z := seqZ 0 n.

(** ** Indexing two-dimensional arrays of objects

    [a[i, j]] and [a[i, j] = x]: a negative index counts from the end and an
    index outside the array raises [IndexError]. *)

Definition norm_index (len : nat) (i : Z) : option nat :=
  let i' := if i <? 0 then i + Z.of_nat len else i in
  if (0 <=? i') && (i' <? Z.of_nat len) then Some (Z.to_nat i') else None.

Definition index_error : exn := IndexError "index is out of bounds".

Definition getitem2 {X} (a : list (list X)) (i j : Z) : result X :=
  match norm_index (length a) i with
  | None => Raise index_error
  | Some r =>
    match a !! r with
    | None => Raise index_error
    | Some row =>
      match norm_index (length row) j with
      | None => Raise index_error
      | Some c =>
        match row !! c with
        | None => Raise index_error
        | Some x => Ok x
        end
      end
    end
  end.

Definition setitem2 {X} (a : list (list X)) (i j : Z) (x : X) : result (list (list X)) :=
  match norm_index (length a) i with
  | None => Raise index_error
  | Some r =>
    match a !! r with
    | None => Raise index_error
    | Some row =>
      match norm_index (length row) j with
      | None => Raise index_error
      | Some c => Ok (<[r := <[c := x]> row]> a)
      end
    end
  end.

(** ** pyplot and the artists *)

(** [plt.fignum_exists(num)] *)
Definition fignum_exists (num : Z) : M bool :=
  gets (λ w, bool_decide (num ∈ fignums w)).

(** pyplot numbers a new figure one above the largest open number. *)
Definition next_fignum (nums : list Z) : Z :=
  match nums with
  | [] => 1
  | _ => foldr Z.max 0 nums + 1
  end.

(** What [plt.subplots] returns for the axes with its default [squeeze]:
    one Axes for a 1x1 grid, a vector when one side is 1, a matrix
    otherwise. *)
Inductive subplots_axes :=
  | SingleAxes (a : nat)
  | AxesVector (l : list nat)
  | AxesMatrix (ll : list (list nat)).

Definition new_axes : Axes := mkAxes None None "auto" [].

Definition squeeze (nr nc : Z) (ll : list (list nat)) : subplots_axes :=
  if (nr =? 1) && (nc =? 1) then
    match concat ll with
    | [a] => SingleAxes a
    | _ => AxesMatrix ll
    end
  else if (nr =? 1) || (nc =? 1) then AxesVector (concat ll)
  else AxesMatrix ll.

(** Identities of the [n * m] Axes of a new figure, in row-major order. *)
Definition fresh_axes (base n m : nat) : list (list nat) :=
  (λ i, (λ j, base + i * m + j)%nat <$> seq 0 m) <$> seq 0 n.

(** [plt.subplots(nrows, ncols, figsize=figsize)], called with positive
    [nrows] and [ncols]: a new open figure and [nrows * ncols] new Axes. *)
Definition plt_subplots (nr nc : Z) (figsize : positive * positive)
    : M (fig_ref * subplots_axes) := λ w,
  let f := next_id w in
  let n := Z.to_nat nr in
  let m := Z.to_nat nc in
  let ids := fresh_axes (f + 1) n m in
  let w1 := set_next_id (f + 1 + n * m)%nat w in
  let num := next_fignum (fignums w) in
  let w2 := set_fignums (fignums w ++ [num]) w1 in
  let w3 := set_axes_store
              (foldr (λ a s, <[a := new_axes]> s) (axes_store w) (concat ids)) w2 in
  (w3, Ok (FigRef f num figsize, squeeze nr nc ids)).

(** [np.empty((nr, nc), dtype=object)]: a new array filled with [None]. *)
Definition np_empty_object (nr nc : Z) : M nat := λ w,
  let a := next_id w in
  (set_object_arrays
     (<[a := replicate (Z.to_nat nr) (replicate (Z.to_nat nc) None)]> (object_arrays w))
     (set_next_id (S a) w),
   Ok a).

(** Reading and writing [image_objects[i, j]] through the reference. *)
Definition image_objects_get (arr : nat) (i j : Z) : M (option nat) := λ w,
  (w, getitem2 (default [] (object_arrays w !! arr)) i j).

Definition image_objects_set (arr : nat) (i j : Z) (im : nat) : M unit := λ w,
  match setitem2 (default [] (object_arrays w !! arr)) i j (Some im) with
  | Ok a' => (set_object_arrays (<[arr := a']> (object_arrays w)) w, Ok ())
  | Raise e => (w, Raise e)
  end.

Definition ax_set_xticks (ax : nat) (ticks : list Z) : M unit :=
  modify (λ w, set_axes_store
    (alter (λ a, mkAxes (Some ticks) (ax_yticks a) (ax_aspect a) (ax_images a)) ax
           (axes_store w)) w).

Definition ax_set_yticks (ax : nat) (ticks : list Z) : M unit :=
  modify (λ w, set_axes_store
    (alter (λ a, mkAxes (ax_xticks a) (Some ticks) (ax_aspect a) (ax_images a)) ax
           (axes_store w)) w).

(** [ax.imshow(data, cmap=cm, vmin=lo, vmax=hi, aspect=aspect)]: a new
    image object, attached to the axes. *)
Definition ax_imshow (ax : nat) (data : imdata) (cm : colormap) (lo hi : Z)
    (aspect : string) : M nat := λ w,
  let im := next_id w in
  let w1 := set_next_id (S im) w in
  let w2 := set_images (<[im := mkImage data cm (lo, hi)]> (images w)) w1 in
  let w3 := set_axes_store
    (alter (λ a, mkAxes (ax_xticks a) (ax_yticks a) aspect (ax_images a ++ [im])) ax
           (axes_store w)) w2 in
  (w3, Ok im).

Definition im_set_data (im : nat) (data : imdata) : M unit :=
  modify (λ w, set_images
    (alter (λ x, mkImage data (im_cmap x) (im_clim x)) im (images w)) w).

Definition im_set_cmap (im : nat) (cm : colormap) : M unit :=
  modify (λ w, set_images
    (alter (λ x, mkImage (im_data x) cm (im_clim x)) im (images w)) w).

Definition im_set_clim (im : nat) (lo hi : Z) : M unit :=
  modify (λ w, set_images
    (alter (λ x, mkImage (im_data x) (im_cmap x) (lo, hi)) im (images w)) w).

(** [fig.suptitle(t)] and the text of [fig._suptitle]. *)
Definition fig_suptitle (f : fig_ref) (t : string) : M unit :=
  modify (λ w, set_suptitles (<[fig_id f := t]> (suptitles w)) w).

Definition fig_get_suptitle (f : fig_ref) : M (option string) :=
  gets (λ w, suptitles w !! fig_id f).

Definition suptitle_set_text (f : fig_ref) (t : string) : M unit :=
  modify (λ w, set_suptitles (alter (λ _, t) (fig_id f) (suptitles w)) w).

Definition toolkit (c : toolkit_call) : M unit := modify (log_call c).

(** The user closes the window of figure [num]. *)
Definition user_close (num : Z) (w : World) : World :=
  set_fignums (filter (λ n, n ≠ num) (fignums w)) w.

(** ** weakref.WeakValueDictionary

    Storing a value takes a weak reference to it.  Instances of most
    classes can be weakly referenced; the built-in [tuple], [int], [str]
    and [NoneType] cannot, and the attempt raises [TypeError]. *)

Inductive pytype := ty_tuple | ty_int | ty_str | ty_NoneType | ty_Figure | ty_ndarray.

Definition type_name (t : pytype) : string :=
  match t with
  | ty_tuple => "tuple"
  | ty_int => "int"
  | ty_str => "str"
  | ty_NoneType => "NoneType"
  | ty_Figure => "Figure"
  | ty_ndarray => "numpy.ndarray"
  end.

Definition supports_weakref (t : pytype) : bool :=
  match t with
  | ty_Figure | ty_ndarray => true
  | ty_tuple | ty_int | ty_str | ty_NoneType => false
  end.

(** [_figure_cache.get(key, (None, None, None))]; [None] stands for the
    default triple. *)
Definition cache_get (key : figure_key_t) : M (option Handle) :=
  gets (λ w, _figure_cache w !! key).

(** [_figure_cache[key] = value], for a value of type [t]. *)
Definition cache_setitem (t : pytype) (key : figure_key_t) (value : Handle) : M unit :=
  if supports_weakref t then
    modify (λ w, set_figure_cache (<[key := value]> (_figure_cache w)) w)
  else
    raise (TypeError ("cannot create weak reference to '" +:+ type_name t +:+ "' object")).

(** ** Arguments of [draw_matrix] *)

(** What may be passed for [matrix]: something that is no numpy array, or
    an array of some dimension.  Only the 2-D case carries data here; the
    others are rejected at line 53.  The elements are integers (an integer
    dtype): the code compares them with 0 and with each other and does no
    arithmetic on them. *)
Inductive matrix_arg :=
  | NotNdarray
  | Ndarray0
  | Ndarray1 (len : nat)
  | Ndarray2 (m : ndarray Z)
  | NdarrayN (extra_dims : nat).

Definition isinstance_ndarray (a : matrix_arg) : bool :=
  match a with NotNdarray => false | _ => true end.

Definition ndim (a : matrix_arg) : Z :=
  match a with
  | NotNdarray | Ndarray0 => 0
  | Ndarray1 _ => 1
  | Ndarray2 _ => 2
  | NdarrayN k => 3 + Z.of_nat k
  end.

(** What may be passed for [grid_rows] and [grid_cols] besides [None]: an
    [int], or a value for which [isinstance(x, int)] is false. *)
Inductive grid_arg :=
  | GridInt (z : Z)
  | GridNotInt.

Record Args := mkArgs {
  matrix : matrix_arg;
  mode : string;
  grid_rows : option grid_arg;
  grid_cols : option grid_arg;
  figsize : positive * positive;
  cmap : option string;
  vmin : option Z;
  vmax : option Z;
  title : option string
}.

(** A call that passes only the matrix: the defaults of lines 17 to 24. *)
Definition default_args (m : matrix_arg) : Args :=
  mkArgs m "binary" None None (6%positive, 6%positive) None None None None.

(** ** Names in scope at the f-string of lines 74 and 75

    Every name is looked up among the locals bound so far, then among the
    module's globals; a name found in neither raises [NameError]. *)

Inductive pyval := VInt (z : Z) | VObject.

Definition format (v : pyval) : string :=
  match v with VInt z => pretty z | VObject => "<object>" end.

Definition module_globals : list string :=
  ["plt"; "mcolors"; "np"; "Sequence"; "Union"; "Tuple"; "Optional"; "Literal";
   "time"; "weakref"; "_figure_cache"; "draw_matrix"].

Definition locals_at_line_70 (rows cols effective_grid_rows effective_grid_cols : Z)
    : list (string * pyval) :=
  [("matrix", VObject); ("mode", VObject); ("grid_rows", VObject);
   ("grid_cols", VObject); ("figsize", VObject); ("cmap", VObject);
   ("vmin", VObject); ("vmax", VObject); ("title", VObject);
   ("rows", VInt rows); ("cols", VInt cols);
   ("effective_grid_rows", VInt effective_grid_rows);
   ("effective_grid_cols", VInt effective_grid_cols)].

Definition lookup_name (env : list (string * pyval)) (x : string) : result pyval :=
  match list_find (λ b, b.1 = x) env with
  | Some (_, (_, v)) => Ok v
  | None =>
    if bool_decide (x ∈ module_globals) then Ok VObject else Raise (NameError x)
  end.

(** The message of lines 74 to 76, its four placeholders evaluated left to
    right. *)
Definition divisibility_message (env : list (string * pyval)) : result string :=
  match lookup_name env "rows" with
  | Raise e => Raise e
  | Ok r =>
    match lookup_name env "cols" with
    | Raise e => Raise e
    | Ok c =>
      match lookup_name env "effective_grid_rows" with
      | Raise e => Raise e
      | Ok gr =>
        match lookup_name env "effective_cols" with
        | Raise e => Raise e
        | Ok gc =>
          Ok ("Matrix dimensions (" +:+ format r +:+ "x" +:+ format c +:+
              ") must be divisible by grid dimensions (" +:+ format gr +:+ "x" +:+
              format gc +:+ "). Padding or handling partial tiles is not supported in this version.")
        end
      end
    end
  end.

(** ** draw_matrix *)

(** Line 53: the data of the argument once it is known to be a 2-D array. *)
Definition check_matrix (x : matrix_arg) : M (ndarray Z) :=
  if negb (isinstance_ndarray x) || negb (ndim x =? 2) then
    raise (TypeError "Input 'matrix' must be a 2D numpy array.")
  else
    match x with
    | Ndarray2 m => mret m
    | _ => raise (TypeError "Input 'matrix' must be a 2D numpy array.")
    end.

(** Lines 65 to 68: [if not isinstance(x, int) or x <= 0: raise ValueError(msg)]. *)
Definition check_positive_int (x : grid_arg) (msg : string) : M Z :=
  match x with
  | GridNotInt => raise (ValueError msg)
  | GridInt z => if z <=? 0 then raise (ValueError msg) else mret z
  end.

(** Lines 70 to 77. *)
Definition check_divisible (rows cols effective_grid_rows effective_grid_cols : Z) : M unit :=
  if negb (rows `mod` effective_grid_rows =? 0) || negb (cols `mod` effective_grid_cols =? 0)
  then
    msg ← lift (divisibility_message
                  (locals_at_line_70 rows cols effective_grid_rows effective_grid_cols));
    raise (ValueError msg)
  else mret ().

(** Lines 93 to 98: the axes as a 2-D array.  Results of more than two
    dimensions, which these expressions give for shapes [plt.subplots] does
    not return for the grid at hand, are outside the model and reported as
    an error. *)
Definition not_2d : exn := ValueError "axes array is not two-dimensional".

Definition axes_as_2d (effective_grid_rows effective_grid_cols : Z) (ax : subplots_axes)
    : result (list (list nat)) :=
  if (effective_grid_rows =? 1) && (effective_grid_cols =? 1) then
    match ax with SingleAxes a => Ok [[a]] | _ => Raise not_2d end
  else if effective_grid_rows =? 1 then
    match ax with AxesVector l => Ok [l] | _ => Raise not_2d end
  else if effective_grid_cols =? 1 then
    match ax with AxesVector l => Ok ((λ a, [a]) <$> l) | _ => Raise not_2d end
  else
    match ax with AxesMatrix ll => Ok ll | _ => Raise not_2d end.

(** Lines 91 to 112: build a figure, register it, strip the ticks. *)
Definition create_handle (figure_key : figure_key_t)
    (effective_grid_rows effective_grid_cols : Z) (figsize : positive * positive)
    : M Handle :=
  '(fig, ax) ← plt_subplots effective_grid_rows effective_grid_cols figsize;
  axes ← lift (axes_as_2d effective_grid_rows effective_grid_cols ax);
  image_objects ← np_empty_object effective_grid_rows effective_grid_cols;
  cache_setitem ty_tuple figure_key (mkHandle fig axes image_objects);;
  for_ (range effective_grid_rows) (λ i,
    for_ (range effective_grid_cols) (λ j,
      ax ← lift (getitem2 axes i j);
      ax_set_xticks ax [];;
      ax_set_yticks ax []));;
  mret (mkHandle fig axes image_objects).

(** Lines 87 to 112. *)
Definition acquire_handle (figure_key : figure_key_t)
    (effective_grid_rows effective_grid_cols : Z) (figsize : positive * positive)
    : M Handle :=
  cached ← cache_get figure_key;
  match cached with
  | None => create_handle figure_key effective_grid_rows effective_grid_cols figsize
  | Some h =>
    open ← fignum_exists (fig_number (fig h));
    if negb open then
      create_handle figure_key effective_grid_rows effective_grid_cols figsize
    else mret h
  end.

(** Lines 127 to 134 and, word for word, 147 to 154. *)
Definition show_tile (h : Handle) (i j : Z) (ax : nat) (tile : imdata)
    (cm : colormap) (plot_vmin plot_vmax : Z) : M unit :=
  cur ← image_objects_get (image_objects h) i j;
  match cur with
  | None =>
    im ← ax_imshow ax tile cm plot_vmin plot_vmax "auto";
    image_objects_set (image_objects h) i j im
  | Some im =>
    im_set_data im tile;;
    im_set_cmap im cm;;
    im_set_clim im plot_vmin plot_vmax
  end.

Definition binary_cmap : colormap := ListedColormap ["black"; "white"].

(** Lines 115 to 134. *)
Definition update_binary (h : Handle) (m : ndarray Z)
    (effective_grid_rows effective_grid_cols tile_rows tile_cols : Z) : M unit :=
  let binary_matrix := gt0 m in
  let plot_vmin := 0 in
  let plot_vmax := 1 in
  for_ (range effective_grid_rows) (λ i,
    for_ (range effective_grid_cols) (λ j,
      ax ← lift (getitem2 (axes h) i j);
      show_tile h i j ax
        (BoolData (tile_data binary_matrix tile_rows tile_cols i j))
        binary_cmap plot_vmin plot_vmax)).

(** Lines 136 to 154. *)
Definition update_color (h : Handle) (m : ndarray Z) (vmin vmax : option Z)
    (cmap : option string)
    (effective_grid_rows effective_grid_cols tile_rows tile_cols : Z) : M unit :=
  plot_vmin ← match vmin with Some v => mret v | None => lift (np_min m) end;
  plot_vmax ← match vmax with Some v => mret v | None => lift (np_max m) end;
  let plot_cmap := default "viridis" cmap in
  for_ (range effective_grid_rows) (λ i,
    for_ (range effective_grid_cols) (λ j,
      ax ← lift (getitem2 (axes h) i j);
      show_tile h i j ax
        (NumData (tile_data m tile_rows tile_cols i j))
        (NamedColormap plot_cmap) plot_vmin plot_vmax)).

(** Lines 115 to 154. *)
Definition update_images (h : Handle) (a : Args) (m : ndarray Z)
    (effective_grid_rows effective_grid_cols tile_rows tile_cols : Z) : M unit :=
  if bool_decide (mode a = "binary") then
    update_binary h m effective_grid_rows effective_grid_cols tile_rows tile_cols
  else if bool_decide (mode a = "color") then
    update_color h m (vmin a) (vmax a) (cmap a)
      effective_grid_rows effective_grid_cols tile_rows tile_cols
  else mret ().

(** Truth value of [title]: [None] and the empty string are false. *)
Definition truthy (t : option string) : bool :=
  match t with
  | Some s => bool_decide (s ≠ EmptyString)
  | None => false
  end.

(** Lines 157 to 162. *)
Definition final_title (title : option string) (f : fig_ref) : M unit :=
  if truthy title then fig_suptitle f (default EmptyString title)
  else
    cur ← fig_get_suptitle f;
    match cur with
    | Some _ => suptitle_set_text f EmptyString
    | None => mret ()
    end.

(** Lines 165 to 172. *)
Definition flush (f : fig_ref) : M unit :=
  toolkit TightLayout;;
  toolkit (CanvasDraw (fig_id f));;
  toolkit (FlushEvents (fig_id f));;
  toolkit Pause.

Definition figure_key (a : Args) (effective_grid_rows effective_grid_cols : Z)
    : figure_key_t :=
  (title a, effective_grid_rows, effective_grid_cols, figsize a).

Definition draw_matrix (a : Args) : M unit :=
  m ← check_matrix (matrix a);
  (if bool_decide (mode a ∈ ["binary"; "color"]) then mret ()
   else raise (ValueError "Parameter 'mode' must be 'binary' or 'color'."));;
  let '(rows, cols) := shape m in
  let effective_grid_rows := default (GridInt 1) (grid_rows a) in
  let effective_grid_cols := default (GridInt 1) (grid_cols a) in
  gr ← check_positive_int effective_grid_rows "'grid_rows' must be a positive integer.";
  gc ← check_positive_int effective_grid_cols "'grid_cols' must be a positive integer.";
  check_divisible rows cols gr gc;;
  let tile_rows := rows `div` gr in
  let tile_cols := cols `div` gc in
  h ← acquire_handle (figure_key a gr gc) gr gc (figsize a);
  update_images h a m gr gc tile_rows tile_cols;;
  final_title (title a) (fig h);;
  flush (fig h).

(** ** Vocabulary of the statements *)

(** The outcome of the checks of lines 53 to 77 as a function of the
    arguments alone; [draw_matrix_run] shows that [draw_matrix] follows it. *)
Definition validation_outcome (a : Args) : result (ndarray Z * Z * Z) :=
  match matrix a with
  | Ndarray2 m =>
    if bool_decide (mode a ∈ ["binary"; "color"]) then
      match default (GridInt 1) (grid_rows a) with
      | GridNotInt => Raise (ValueError "'grid_rows' must be a positive integer.")
      | GridInt gr =>
        if gr <=? 0 then Raise (ValueError "'grid_rows' must be a positive integer.")
        else
          match default (GridInt 1) (grid_cols a) with
          | GridNotInt => Raise (ValueError "'grid_cols' must be a positive integer.")
          | GridInt gc =>
            if gc <=? 0 then Raise (ValueError "'grid_cols' must be a positive integer.")
            else if negb (Z.of_nat (nrows m) `mod` gr =? 0)
                    || negb (Z.of_nat (arr_ncols m) `mod` gc =? 0)
            then Raise (NameError "effective_cols")
            else Ok (m, gr, gc)
          end
      end
    else Raise (ValueError "Parameter 'mode' must be 'binary' or 'color'.")
  | _ => Raise (TypeError "Input 'matrix' must be a 2D numpy array.")
  end.

(** Lines 79 to 172, for arguments that passed the checks. *)
Definition after_validation (a : Args) (m : ndarray Z) (gr gc : Z) : M unit :=
  h ← acquire_handle (figure_key a gr gc) gr gc (figsize a);
  update_images h a m gr gc (Z.of_nat (nrows m) `div` gr) (Z.of_nat (arr_ncols m) `div` gc);;
  final_title (title a) (fig h);;
  flush (fig h).

(** Arguments that pass every check: a 2-D array [m], a recognised mode,
    and positive integer grid dimensions [gr], [gc] that divide the shape. *)
Record valid_input (a : Args) (m : ndarray Z) (gr gc : Z) : Prop := {
  valid_matrix : matrix a = Ndarray2 m;
  valid_mode : mode a = "binary" ∨ mode a = "color";
  valid_grid_rows : default (GridInt 1) (grid_rows a) = GridInt gr;
  valid_grid_cols : default (GridInt 1) (grid_cols a) = GridInt gc;
  valid_grid_rows_pos : 0 < gr;
  valid_grid_cols_pos : 0 < gc;
  valid_rows_divisible : Z.of_nat (nrows m) `mod` gr = 0;
  valid_cols_divisible : Z.of_nat (arr_ncols m) `mod` gc = 0
}.

(** The ways an input can be invalid. *)
Inductive invalid_input (a : Args) : Prop :=
  | invalid_not_2d :
      ¬ (isinstance_ndarray (matrix a) = true ∧ ndim (matrix a) = 2) →
      invalid_input a
  | invalid_mode :
      mode a ≠ "binary" → mode a ≠ "color" → invalid_input a
  | invalid_grid_rows_type :
      grid_rows a = Some GridNotInt → invalid_input a
  | invalid_grid_rows_sign z :
      grid_rows a = Some (GridInt z) → z ≤ 0 → invalid_input a
  | invalid_grid_cols_type :
      grid_cols a = Some GridNotInt → invalid_input a
  | invalid_grid_cols_sign z :
      grid_cols a = Some (GridInt z) → z ≤ 0 → invalid_input a
  | invalid_not_dividing m gr gc :
      matrix a = Ndarray2 m →
      default (GridInt 1) (grid_rows a) = GridInt gr →
      default (GridInt 1) (grid_cols a) = GridInt gc →
      Z.of_nat (nrows m) `mod` gr ≠ 0 ∨ Z.of_nat (arr_ncols m) `mod` gc ≠ 0 →
      invalid_input a.

(** States the process can be in: the module has been imported, and then
    [draw_matrix] is called and the user closes windows, in any order. *)
Inductive reachable : World → Prop :=
  | reachable_initial : reachable initial_world
  | reachable_call a w : reachable w → reachable (draw_matrix a w).1
  | reachable_close num w : reachable w → reachable (user_close num w).

(** A computation that leaves [_figure_cache] as it found it. *)
Definition keeps_cache {A} (m : M A) : Prop :=
  ∀ w, _figure_cache (m w).1 = _figure_cache w.

Definition weakref_error : exn :=
  TypeError "cannot create weak reference to 'tuple' object".

(** ** Concrete inputs *)

(** [np.ones((10, 10), dtype=int)] *)
Definition ones_10x10 : ndarray Z := Ndarray (replicate 10 (replicate 10 1)) 10.

(** [draw_matrix(np.ones((10, 10), dtype=int), grid_rows=3)] *)
Definition args_10x10_grid_rows_3 : Args :=
  mkArgs (Ndarray2 ones_10x10) "binary" (Some (GridInt 3)) None
         (6%positive, 6%positive) None None None None.

(** The state once lines 91 and 100 have run: the new figure with its
    axes, and the new [image_objects] array. *)
Definition world_after_creation (gr gc : Z) (sz : positive * positive) (w : World) : World :=
  (np_empty_object gr gc (plt_subplots gr gc sz w).1).1.

(** [np.zeros((2, 2), dtype=int)] *)
Definition zeros_2x2 : ndarray Z := Ndarray [[0; 0]; [0; 0]] 2.

(** [draw_matrix(np.zeros((2, 2), dtype=int))] and the same call with
    [title="A"]. *)
Definition args_zeros : Args := default_args (Ndarray2 zeros_2x2).

Definition with_title (t : option string) (a : Args) : Args :=
  mkArgs (matrix a) (mode a) (grid_rows a) (grid_cols a) (figsize a)
         (cmap a) (vmin a) (vmax a) t.

Definition args_zeros_titled : Args := with_title (Some "A") args_zeros.

(** ** Handles in the store *)

(** The array behind [image_objects], and the image registered for a cell. *)
Definition objects_of (h : Handle) (w : World) : list (list (option nat)) :=
  default [] (object_arrays w !! image_objects h).

Definition image_at (h : Handle) (w : World) (i j : Z) : option nat :=
  match getitem2 (objects_of h w) i j with
  | Ok (Some im) => Some im
  | _ => None
  end.

(** Cell [(i, j)] of the handle holds an image object in state [img]. *)
Definition cell_shows (h : Handle) (w : World) (i j : Z) (img : AxesImage) : Prop :=
  ∃ im, image_at h w i j = Some im ∧ images w !! im = Some img.

(** A handle as lines 91 to 100 build it and as the loops maintain it: the
    axes and the [image_objects] array cover the grid, the images
    registered in the array exist and are pairwise distinct objects, and
    the allocator has handed out every image there is. *)
Record handle_ok (gr gc : Z) (h : Handle) (w : World) : Prop := {
  ok_axes : ∀ i j, 0 ≤ i < gr → 0 ≤ j < gc →
    ∃ ax, getitem2 (axes h) i j = Ok ax;
  ok_objects : ∀ i j, 0 ≤ i < gr → 0 ≤ j < gc →
    ∃ cur, getitem2 (objects_of h w) i j = Ok cur;
  ok_images : ∀ i j im, 0 ≤ i < gr → 0 ≤ j < gc →
    image_at h w i j = Some im → is_Some (images w !! im);
  ok_distinct : ∀ i j i' j' im,
    0 ≤ i < gr → 0 ≤ j < gc → 0 ≤ i' < gr → 0 ≤ j' < gc →
    image_at h w i j = Some im → image_at h w i' j' = Some im →
    i = i' ∧ j = j';
  ok_fresh : ∀ im, is_Some (images w !! im) → (im < next_id w)%nat
}.

(** The two loops of lines 122 to 134 and of lines 142 to 154, which
    differ only in the tile, the palette and the range they pass on. *)
Definition render_loop (h : Handle) (gr gc : Z) (tile : Z → Z → imdata)
    (cm : colormap) (lo hi : Z) : M unit :=
  for_ (range gr) (λ i,
    for_ (range gc) (λ j,
      ax ← lift (getitem2 (axes h) i j);
      show_tile h i j ax (tile i j) cm lo hi)).

(** What holds during [render_loop], started in state [w0], once the cells
    selected by [visited] have been drawn. *)
Definition loop_invariant (gr gc : Z) (h : Handle) (tile : Z → Z → imdata)
    (cm : colormap) (lo hi : Z) (w0 : World)
    (visited : Z → Z → Prop) (w : World) : Prop :=
  handle_ok gr gc h w
  ∧ (∀ i j, 0 ≤ i < gr → 0 ≤ j < gc → visited i j →
       cell_shows h w i j (mkImage (tile i j) cm (lo, hi)))
  ∧ (∀ i j im, 0 ≤ i < gr → 0 ≤ j < gc →
       image_at h w0 i j = Some im → image_at h w i j = Some im).

(** The handle that lines 91 to 100 build in state [w]. *)
Definition created_handle (gr gc : Z) (sz : positive * positive) (w : World) : Handle :=
  mkHandle (FigRef (next_id w) (next_fignum (fignums w)) sz)
           (fresh_axes (next_id w + 1) (Z.to_nat gr) (Z.to_nat gc))
           (next_id w + 1 + Z.to_nat gr * Z.to_nat gc).

(** ** Colours of a discrete palette

    An image with a [ListedColormap] of [n] colours and range [lo, hi]
    shows a value [x] in that range in the colour at index
    [floor((x - lo) / (hi - lo) * n)], the top of the range falling in the
    last colour; a boolean counts as 0 or 1. *)
Definition listed_index (n lo hi x : Z) : Z :=
  Z.min (n - 1) (Z.max 0 (((x - lo) * n) `div` (hi - lo))).

Definition bool_value (b : bool) : Z := if b then 1 else 0.

Definition pixel_value (d : imdata) (r c : Z) : option Z :=
  match d with
  | BoolData a => bool_value <$> elem a r c
  | NumData a => elem a r c
  end.

Definition pixel_colour (img : AxesImage) (r c : Z) : option string :=
  match im_cmap img with
  | ListedColormap colors =>
    x ← pixel_value (im_data img) r c;
    colors !! Z.to_nat (listed_index (Z.of_nat (length colors))
                          (im_clim img).1 (im_clim img).2 x)
  | NamedColormap _ => None
  end.

(** The handle that lines 91 to 100 build in a fresh process for a 2x2
    grid, and the state they leave. *)
Definition world_2x2 : World :=
  world_after_creation 2 2 (6%positive, 6%positive) initial_world.

Definition handle_2x2 : Handle :=
  mkHandle (FigRef 0 1 (6%positive, 6%positive)) [[1; 2]; [3; 4]]%nat 5.

(** [np.array([[1, -2], [0, 4]])] *)
Definition mixed_2x2 : ndarray Z := Ndarray [[1; -2]; [0; 4]] 2.

(** [draw_matrix(np.array([[1, -2], [0, 4]]), grid_rows=2, grid_cols=2)] and
    the same call with [mode='color']. *)
Definition args_mixed_binary : Args :=
  mkArgs (Ndarray2 mixed_2x2) "binary" (Some (GridInt 2)) (Some (GridInt 2))
         (6%positive, 6%positive) None None None None.

Definition args_mixed_color : Args :=
  mkArgs (Ndarray2 mixed_2x2) "color" (Some (GridInt 2)) (Some (GridInt 2))
         (6%positive, 6%positive) None None None None.

(** ** Further vocabulary *)

(** Whether the checks of lines 53 to 77 let the arguments through. *)
Definition passes_validation (a : Args) : bool :=
  match validation_outcome a with Ok _ => true | Raise _ => false end.

(** A grid argument that line 65 or line 67 rejects. *)
Definition rejected_grid (g : option grid_arg) : Prop :=
  match default (GridInt 1) g with
  | GridInt z => z ≤ 0
  | GridNotInt => True
  end.

(** A caller that goes on after an exception: the calls of [l], one after
    the other, each started in the state the previous one left. *)
Definition run_calls (l : list Args) (w : World) : World :=
  foldl (λ w a, (draw_matrix a w).1) w l.

(** The same call with other values for [cmap], [vmin] and [vmax]. *)
Definition with_palette (cm : option string) (lo hi : option Z) (a : Args) : Args :=
  mkArgs (matrix a) (mode a) (grid_rows a) (grid_cols a) (figsize a)
         cm lo hi (title a).

(** Nothing has ever been shown: no handle cached, no image object, no
    heading, no drawing call, every [image_objects] array still full of
    [None] and every Axes as [plt.subplots] made it. *)
Definition nothing_drawn (w : World) : Prop :=
  _figure_cache w = ∅
  ∧ images w = ∅
  ∧ suptitles w = ∅
  ∧ toolkit_log w = []
  ∧ (∀ ax x, axes_store w !! ax = Some x → x = new_axes)
  ∧ (∀ arr a, object_arrays w !! arr = Some a → Forall (Forall (λ o, o = None)) a).

(** A computation that leaves the open figures, the headings, the cache
    and the log of drawing calls as it found them, whether it returns or
    raises. *)
Definition keeps_display {A} (m : M A) : Prop :=
  ∀ w, fignums (m w).1 = fignums w
       ∧ suptitles (m w).1 = suptitles w
       ∧ _figure_cache (m w).1 = _figure_cache w
       ∧ toolkit_log (m w).1 = toolkit_log w.

(** [draw_matrix([1, 2, 3], mode="grayscale", grid_rows=0, grid_cols=0)]
    with a Python list for the matrix: wrong in every way at once. *)
Definition args_wrong_everywhere : Args :=
  mkArgs NotNdarray "grayscale" (Some (GridInt 0)) (Some (GridInt 0))
         (6%positive, 6%positive) None None None None.

(** [np.zeros((0, 3), dtype=int)]: a 2-D array without rows. *)
Definition empty_0x3 : ndarray Z := Ndarray [] 3.

(** A state in which other code has put the handle of figure 1 under the
    key of a 2x2 call without title (a value the dictionary accepts, such
    as an instance of a subclass of [tuple]), and the same state after the
    user has closed that figure. *)
Definition world_cached : World :=
  set_figure_cache {[ figure_key args_mixed_binary 2 2 := handle_2x2 ]} world_2x2.

Definition world_cached_closed : World := user_close 1 world_cached.

(** The data the loops give the image of cell [(i, j)]: the tile of
    [matrix > 0] in mode 'binary', the raw tile otherwise. *)
Definition tile_image (a : Args) (m : ndarray Z) (tr tc i j : Z) : imdata :=
  if bool_decide (mode a = "binary") then BoolData (tile_data (gt0 m) tr tc i j)
  else NumData (tile_data m tr tc i j).

(** Inputs the rendering loops can draw: mode 'binary', or mode 'color' on
    a matrix that has an element (so that [np.min] and [np.max] exist). *)
Definition renderable (a : Args) (m : ndarray Z) : Prop :=
  mode a = "binary" ∨ (mode a = "color" ∧ flat m ≠ []).


(** [np.array([[1, 2], [3, 4]])]: every element positive, and the call
    [draw_matrix(np.array([[1, 2], [3, 4]]))]. *)
Definition positive_2x2 : ndarray Z := Ndarray [[1; 2]; [3; 4]] 2.

Definition args_positive_binary : Args := default_args (Ndarray2 positive_2x2).



(** * Properties *)

(** ** Running the monad *)

Lemma bind_run {A B} (m : M A) (f : A → M B) (w : World) :
  (m ≫= f) w =
  match m w with
  | (w', Ok a) => f a w'
  | (w', Raise e) => (w', Raise e)
  end.
Proof. reflexivity. Qed.

(** ** Validation, lines 53 to 77 *)

Lemma divisibility_message_raises rows cols gr gc :
  divisibility_message (locals_at_line_70 rows cols gr gc)
  = Raise (NameError "effective_cols").
Proof. reflexivity. Qed.

Lemma check_divisible_run rows cols gr gc w :
  check_divisible rows cols gr gc w =
  if negb (rows `mod` gr =? 0) || negb (cols `mod` gc =? 0)
  then (w, Raise (NameError "effective_cols")) else (w, Ok ()).
Proof.
  unfold check_divisible.
  destruct (negb (rows `mod` gr =? 0) || negb (cols `mod` gc =? 0)); [|done].
  rewrite bind_run. unfold lift. by rewrite divisibility_message_raises.
Qed.

Lemma check_matrix_run (x : matrix_arg) (w : World) :
  check_matrix x w =
  match x with
  | Ndarray2 m => (w, Ok m)
  | _ => (w, Raise (TypeError "Input 'matrix' must be a 2D numpy array."))
  end.
Proof.
  destruct x as [| |len|m|k]; try reflexivity.
  unfold check_matrix. simpl.
  replace (3 + Z.of_nat k =? 2) with false by (symmetry; apply Z.eqb_neq; lia).
  reflexivity.
Qed.

Lemma check_positive_int_run (x : grid_arg) (msg : string) (w : World) :
  check_positive_int x msg w =
  match x with
  | GridInt z => if z <=? 0 then (w, Raise (ValueError msg)) else (w, Ok z)
  | GridNotInt => (w, Raise (ValueError msg))
  end.
Proof. destruct x as [z|]; [|reflexivity]. simpl. by destruct (z <=? 0). Qed.

Lemma draw_matrix_run (a : Args) (w : World) :
  draw_matrix a w =
  match validation_outcome a with
  | Ok (m, gr, gc) => after_validation a m gr gc w
  | Raise e => (w, Raise e)
  end.
Proof.
  unfold draw_matrix, validation_outcome.
  rewrite bind_run, check_matrix_run.
  destruct (matrix a) as [| |len|m|k]; try reflexivity.
  rewrite bind_run.
  destruct (bool_decide (mode a ∈ ["binary"; "color"])); [|reflexivity].
  unfold mret at 1, M_ret at 1. unfold shape.
  rewrite bind_run, check_positive_int_run.
  destruct (default (GridInt 1) (grid_rows a)) as [gr|]; [|reflexivity].
  destruct (gr <=? 0); [reflexivity|].
  rewrite bind_run, check_positive_int_run.
  destruct (default (GridInt 1) (grid_cols a)) as [gc|]; [|reflexivity].
  destruct (gc <=? 0); [reflexivity|].
  rewrite bind_run, check_divisible_run.
  destruct (negb (Z.of_nat (nrows m) `mod` gr =? 0)
            || negb (Z.of_nat (arr_ncols m) `mod` gc =? 0)); reflexivity.
Qed.

Lemma validation_ok_inv (a : Args) m gr gc :
  validation_outcome a = Ok (m, gr, gc) → valid_input a m gr gc.
Proof.
  unfold validation_outcome. intros H.
  destruct (matrix a) as [| |len|m'|k] eqn:Hm; try discriminate.
  destruct (bool_decide (mode a ∈ ["binary"; "color"])) eqn:Hmode; [|discriminate].
  destruct (default (GridInt 1) (grid_rows a)) as [gr'|] eqn:Hgr; [|discriminate].
  destruct (gr' <=? 0) eqn:Hgr0; [discriminate|].
  destruct (default (GridInt 1) (grid_cols a)) as [gc'|] eqn:Hgc; [|discriminate].
  destruct (gc' <=? 0) eqn:Hgc0; [discriminate|].
  destruct (Z.of_nat (nrows m') `mod` gr' =? 0) eqn:Hr; [|discriminate].
  destruct (Z.of_nat (arr_ncols m') `mod` gc' =? 0) eqn:Hc; [|discriminate].
  simpl in H. injection H as -> -> ->.
  apply bool_decide_eq_true in Hmode.
  apply Z.leb_gt in Hgr0, Hgc0. apply Z.eqb_eq in Hr, Hc.
  apply elem_of_cons in Hmode as [Hmode|Hmode];
    [|apply list_elem_of_singleton in Hmode]; split; auto.
Qed.

Lemma validation_ok_intro (a : Args) m gr gc :
  valid_input a m gr gc → validation_outcome a = Ok (m, gr, gc).
Proof.
  intros [Hm Hmode Hgr Hgc Hgr0 Hgc0 Hr Hc]. unfold validation_outcome.
  rewrite Hm, Hgr, Hgc, Hr, Hc.
  rewrite bool_decide_eq_true_2 by (destruct Hmode as [-> | ->]; [left | right; left]).
  rewrite (proj2 (Z.leb_gt gr 0)), (proj2 (Z.leb_gt gc 0)) by done.
  reflexivity.
Qed.

Lemma invalid_input_rejected (a : Args) :
  invalid_input a → ∃ e, validation_outcome a = Raise e.
Proof.
  intros Hinv.
  destruct (validation_outcome a) as [[[m gr] gc]|e] eqn:Hv; [|by eexists].
  exfalso. apply validation_ok_inv in Hv.
  destruct Hv as [Hm Hmode Hgr Hgc Hgr0 Hgc0 Hr Hc].
  destruct Hinv as [H | H1 H2 | H | z H Hz | H | z H Hz | m' gr' gc' Hm' Hgr' Hgc' Hd].
  - apply H. by rewrite Hm.
  - destruct Hmode; contradiction.
  - rewrite H in Hgr. discriminate.
  - rewrite H in Hgr. simpl in Hgr. injection Hgr as ->. lia.
  - rewrite H in Hgc. discriminate.
  - rewrite H in Hgc. simpl in Hgc. injection Hgc as ->. lia.
  - rewrite Hm in Hm'. injection Hm' as <-.
    rewrite Hgr in Hgr'. injection Hgr' as <-.
    rewrite Hgc in Hgc'. injection Hgc' as <-.
    destruct Hd; contradiction.
Qed.

(** C6.  An invalid input (not a 2-D array, an unknown mode, a grid
    dimension that is no int or is not positive, or grid dimensions that do
    not divide the shape) makes [draw_matrix] raise with the whole state
    exactly as it was: no figure, axes, image or array is created or
    changed, the cache and every cached handle are untouched, and no
    toolkit call is made. *)
Theorem invalid_input_raises_without_effect (a : Args) (w : World) :
  invalid_input a → ∃ e, draw_matrix a w = (w, Raise e).
Proof.
  intros Hinv. destruct (invalid_input_rejected a Hinv) as [e He].
  exists e. by rewrite draw_matrix_run, He.
Qed.

Lemma non_dividing_raises_NameError (a : Args) (w : World) m gr gc :
  matrix a = Ndarray2 m →
  mode a = "binary" ∨ mode a = "color" →
  default (GridInt 1) (grid_rows a) = GridInt gr →
  default (GridInt 1) (grid_cols a) = GridInt gc →
  0 < gr → 0 < gc →
  Z.of_nat (nrows m) `mod` gr ≠ 0 ∨ Z.of_nat (arr_ncols m) `mod` gc ≠ 0 →
  draw_matrix a w = (w, Raise (NameError "effective_cols")).
Proof.
  intros Hm Hmode Hgr Hgc Hgr0 Hgc0 Hd.
  rewrite draw_matrix_run. unfold validation_outcome.
  rewrite Hm, Hgr, Hgc.
  rewrite bool_decide_eq_true_2 by (destruct Hmode as [-> | ->]; [left | right; left]).
  rewrite (proj2 (Z.leb_gt gr 0)), (proj2 (Z.leb_gt gc 0)) by done.
  destruct (Z.of_nat (nrows m) `mod` gr =? 0) eqn:Er;
    destruct (Z.of_nat (arr_ncols m) `mod` gc =? 0) eqn:Ec; try reflexivity.
  apply Z.eqb_eq in Er, Ec. by destruct Hd.
Qed.

(** C5.  A 10x10 matrix with [grid_rows=3]: the call is rejected, but the
    exception is the [NameError] raised while the message of the intended
    [ValueError] is being formatted, because the f-string names
    [effective_cols], which is bound nowhere. *)
Theorem non_dividing_grid_raises_NameError :
  draw_matrix (args_10x10_grid_rows_3) initial_world
  = (initial_world, Raise (NameError "effective_cols")).
Proof. reflexivity. Qed.

(** ** The cache is never written *)

Section KeepsCache.
Context {A B : Type}.

Lemma keeps_cache_ret (a : A) : keeps_cache (mret a : M A).
Proof. by intros w. Qed.

Lemma keeps_cache_raise (e : exn) : keeps_cache (raise e : M A).
Proof. by intros w. Qed.

Lemma keeps_cache_lift (r : result A) : keeps_cache (lift r).
Proof. by intros w. Qed.

Lemma keeps_cache_gets (f : World → A) : keeps_cache (gets f).
Proof. by intros w. Qed.

Lemma keeps_cache_bind (m : M A) (f : A → M B) :
  keeps_cache m → (∀ a, keeps_cache (f a)) → keeps_cache (m ≫= f).
Proof.
  intros Hm Hf w. rewrite bind_run. specialize (Hm w).
  destruct (m w) as [w' [a|e]]; simpl in *; [|done].
  rewrite <- Hm. apply Hf.
Qed.

End KeepsCache.

Lemma keeps_cache_for {A} (l : list A) (body : A → M unit) :
  (∀ x, keeps_cache (body x)) → keeps_cache (for_ l body).
Proof.
  intros Hb. induction l as [|x l IH]; simpl.
  - apply keeps_cache_ret.
  - apply keeps_cache_bind; [apply Hb | by intros _].
Qed.

Lemma keeps_cache_modify (f : World → World) :
  (∀ w, _figure_cache (f w) = _figure_cache w) → keeps_cache (modify f).
Proof. intros H w. apply H. Qed.

Lemma keeps_cache_setitem_tuple key value :
  keeps_cache (cache_setitem ty_tuple key value).
Proof. by intros w. Qed.

Lemma keeps_cache_subplots nr nc sz : keeps_cache (plt_subplots nr nc sz).
Proof. by intros w. Qed.

Lemma keeps_cache_np_empty nr nc : keeps_cache (np_empty_object nr nc).
Proof. by intros w. Qed.

Lemma keeps_cache_imshow ax d cm lo hi asp : keeps_cache (ax_imshow ax d cm lo hi asp).
Proof. by intros w. Qed.

Lemma keeps_cache_objects_get arr i j : keeps_cache (image_objects_get arr i j).
Proof. by intros w. Qed.

Lemma keeps_cache_objects_set arr i j im : keeps_cache (image_objects_set arr i j im).
Proof.
  intros w. unfold image_objects_set.
  by destruct (setitem2 _ i j (Some im)).
Qed.

Create HintDb keeps discriminated.
#[local] Hint Resolve keeps_cache_ret keeps_cache_raise keeps_cache_lift keeps_cache_gets
  keeps_cache_setitem_tuple keeps_cache_subplots keeps_cache_np_empty
  keeps_cache_imshow keeps_cache_objects_get keeps_cache_objects_set : keeps.

(** Goals of the form [keeps_cache m]: descend through binds, loops and
    case distinctions down to the primitives. *)
Ltac keeps :=
  repeat first
    [ progress intros
    | apply keeps_cache_bind
    | apply keeps_cache_for
    | apply keeps_cache_modify; reflexivity
    | solve [auto with keeps]
    | match goal with
      | |- keeps_cache (match ?x with _ => _ end) => destruct x
      | |- keeps_cache (let '(_, _) := ?x in _) => destruct x
      end ].

Lemma keeps_cache_create_handle key gr gc sz :
  keeps_cache (create_handle key gr gc sz).
Proof. unfold create_handle, ax_set_xticks, ax_set_yticks. keeps. Qed.

Lemma keeps_cache_acquire_handle key gr gc sz :
  keeps_cache (acquire_handle key gr gc sz).
Proof.
  unfold acquire_handle, cache_get, fignum_exists. keeps.
  all: apply keeps_cache_create_handle.
Qed.

Lemma keeps_cache_show_tile h i j ax tile cm lo hi :
  keeps_cache (show_tile h i j ax tile cm lo hi).
Proof. unfold show_tile, im_set_data, im_set_cmap, im_set_clim. keeps. Qed.

Lemma keeps_cache_update_images h a m gr gc tr tc :
  keeps_cache (update_images h a m gr gc tr tc).
Proof.
  unfold update_images, update_binary, update_color. keeps.
  all: apply keeps_cache_show_tile.
Qed.

Lemma keeps_cache_final_title t f : keeps_cache (final_title t f).
Proof.
  unfold final_title, fig_suptitle, fig_get_suptitle, suptitle_set_text. keeps.
Qed.

Lemma keeps_cache_flush f : keeps_cache (flush f).
Proof. unfold flush, toolkit. keeps. Qed.

Lemma keeps_cache_draw_matrix (a : Args) : keeps_cache (draw_matrix a).
Proof.
  intros w. rewrite draw_matrix_run.
  destruct (validation_outcome a) as [[[m gr] gc]|e]; [|done].
  revert w. change (keeps_cache (after_validation a m gr gc)).
  unfold after_validation.
  apply keeps_cache_bind; [apply keeps_cache_acquire_handle|]. intros h.
  apply keeps_cache_bind; [apply keeps_cache_update_images|]. intros _.
  apply keeps_cache_bind; [apply keeps_cache_final_title|]. intros _.
  apply keeps_cache_flush.
Qed.

Lemma reachable_cache_empty (w : World) : reachable w → _figure_cache w = ∅.
Proof.
  induction 1 as [|a w _ IH|num w _ IH]; [done| |done].
  by rewrite keeps_cache_draw_matrix.
Qed.

(** ** The creation path, lines 91 to 103 *)

Lemma fresh_axes_length base n m : length (fresh_axes base n m) = n.
Proof. unfold fresh_axes. by rewrite length_fmap, length_seq. Qed.

Lemma fresh_axes_row_length base n m :
  Forall (λ row, length row = m) (fresh_axes base n m).
Proof.
  unfold fresh_axes. apply Forall_fmap, Forall_forall. intros i _. simpl.
  by rewrite length_fmap, length_seq.
Qed.

Lemma concat_singletons {X} (ll : list (list X)) :
  Forall (λ row, length row = 1%nat) ll → (λ a, [a]) <$> concat ll = ll.
Proof.
  induction 1 as [|row ll Hrow _ IH]; [done|].
  destruct row as [|x [|y row]]; try done. csimpl. by rewrite IH.
Qed.

Lemma axes_as_2d_squeeze (gr gc : Z) (ids : list (list nat)) :
  0 < gr → 0 < gc →
  length ids = Z.to_nat gr →
  Forall (λ row, length row = Z.to_nat gc) ids →
  axes_as_2d gr gc (squeeze gr gc ids) = Ok ids.
Proof.
  intros Hgr Hgc Hlen Hrows. unfold axes_as_2d, squeeze.
  destruct (gr =? 1) eqn:Egr; destruct (gc =? 1) eqn:Egc; simpl.
  - apply Z.eqb_eq in Egr as ->. apply Z.eqb_eq in Egc as ->.
    destruct ids as [|row [|row' ids]]; try done.
    apply Forall_inv in Hrows.
    by destruct row as [|x [|y row]].
  - apply Z.eqb_eq in Egr as ->.
    destruct ids as [|row [|row' ids]]; try done.
    simpl. by rewrite app_nil_r.
  - apply Z.eqb_eq in Egc as ->.
    by rewrite concat_singletons.
  - done.
Qed.

Lemma create_handle_run key (gr gc : Z) sz (w : World) :
  0 < gr → 0 < gc →
  create_handle key gr gc sz w = (world_after_creation gr gc sz w, Raise weakref_error).
Proof.
  intros Hgr Hgc. unfold create_handle.
  rewrite bind_run. unfold plt_subplots at 1.
  rewrite bind_run. unfold lift at 1.
  rewrite axes_as_2d_squeeze
    by auto using fresh_axes_length, fresh_axes_row_length.
  rewrite bind_run. reflexivity.
Qed.

Lemma acquire_handle_miss key (gr gc : Z) sz (w : World) :
  0 < gr → 0 < gc →
  _figure_cache w !! key = None →
  acquire_handle key gr gc sz w = (world_after_creation gr gc sz w, Raise weakref_error).
Proof.
  intros Hgr Hgc Hmiss. unfold acquire_handle.
  rewrite bind_run. unfold cache_get, gets. rewrite Hmiss.
  by apply create_handle_run.
Qed.

Lemma draw_matrix_cache_miss (a : Args) m gr gc (w : World) :
  valid_input a m gr gc →
  _figure_cache w !! figure_key a gr gc = None →
  draw_matrix a w = (world_after_creation gr gc (figsize a) w, Raise weakref_error).
Proof.
  intros Hvalid Hmiss.
  rewrite draw_matrix_run, (validation_ok_intro _ _ _ _ Hvalid).
  unfold after_validation. rewrite bind_run.
  rewrite acquire_handle_miss by (done || apply Hvalid).
  reflexivity.
Qed.

(** C9.  For a valid input whose key is not in the cache, [draw_matrix]
    builds the figure, its axes and the [image_objects] array and then
    raises [TypeError] at the store of line 103, because the value stored
    in the weak-value dictionary is a tuple.  Nothing after the store runs:
    the cache has no new entry, no image exists that did not exist before,
    no heading is set and no drawing call is made. *)
Theorem cache_miss_store_raises_TypeError (a : Args) m gr gc (w : World) :
  valid_input a m gr gc →
  _figure_cache w !! figure_key a gr gc = None →
  supports_weakref ty_tuple = false
  ∧ draw_matrix a w
    = (world_after_creation gr gc (figsize a) w,
       Raise (TypeError "cannot create weak reference to 'tuple' object"))
  ∧ fignums (world_after_creation gr gc (figsize a) w)
    = fignums w ++ [next_fignum (fignums w)]
  ∧ _figure_cache (world_after_creation gr gc (figsize a) w) = _figure_cache w
  ∧ images (world_after_creation gr gc (figsize a) w) = images w
  ∧ suptitles (world_after_creation gr gc (figsize a) w) = suptitles w
  ∧ toolkit_log (world_after_creation gr gc (figsize a) w) = toolkit_log w.
Proof.
  intros Hvalid Hmiss. split; [done|]. split; [|done].
  by apply (draw_matrix_cache_miss a m gr gc w).
Qed.

Lemma cache_miss_store_raises_TypeError_witness :
  valid_input args_zeros zeros_2x2 1 1
  ∧ _figure_cache initial_world !! figure_key args_zeros 1 1 = None
  ∧ draw_matrix args_zeros initial_world
    = (world_after_creation 1 1 (figsize args_zeros) initial_world,
       Raise (TypeError "cannot create weak reference to 'tuple' object")).
Proof.
  assert (valid_input args_zeros zeros_2x2 1 1) as Hvalid.
  { split; try reflexivity; auto. }
  split; [exact Hvalid|]. split; [reflexivity|].
  apply (cache_miss_store_raises_TypeError args_zeros zeros_2x2 1 1 initial_world Hvalid).
  reflexivity.
Defined.

(** In every state the process can reach the cache is empty, so every call
    with a valid input ends in that [TypeError]. *)
Lemma valid_call_raises_in_reachable_state (a : Args) m gr gc (w : World) :
  reachable w → valid_input a m gr gc →
  draw_matrix a w = (world_after_creation gr gc (figsize a) w, Raise weakref_error).
Proof.
  intros Hw Hvalid.
  apply (draw_matrix_cache_miss a m gr gc w Hvalid).
  by rewrite (reachable_cache_empty w Hw).
Qed.

(** ** Repeated calls *)

(** C2.  [draw_matrix(np.zeros((2, 2), dtype=int))] called twice from a
    fresh process: the first call opens figure 1 and raises at the cache
    store, so nothing is cached; the second call, with the identical key,
    finds no handle, opens figure 2 and raises in the same way.  No image
    is ever created or updated. *)
Theorem identical_key_second_call_opens_new_figure :
  (draw_matrix args_zeros initial_world).2 = Raise weakref_error
  ∧ _figure_cache (draw_matrix args_zeros initial_world).1 = ∅
  ∧ fignums (draw_matrix args_zeros initial_world).1 = [1]
  ∧ (draw_matrix args_zeros (draw_matrix args_zeros initial_world).1).2
    = Raise weakref_error
  ∧ fignums (draw_matrix args_zeros (draw_matrix args_zeros initial_world).1).1
    = [1; 2]
  ∧ images (draw_matrix args_zeros (draw_matrix args_zeros initial_world).1).1 = ∅.
Proof. vm_compute. repeat split; reflexivity. Qed.

(** C7.  The same call, the user closing the window of figure 1, and the
    call again: the closure is not what fails, but the call that follows it
    raises [TypeError] at the cache store all the same, after opening a new
    figure. *)
Theorem call_after_close_raises :
  (draw_matrix args_zeros initial_world).2 = Raise weakref_error
  ∧ fignums (user_close 1 (draw_matrix args_zeros initial_world).1) = []
  ∧ (draw_matrix args_zeros
       (user_close 1 (draw_matrix args_zeros initial_world).1)).2
    = Raise weakref_error
  ∧ fignums (draw_matrix args_zeros
       (user_close 1 (draw_matrix args_zeros initial_world).1)).1 = [1]
  ∧ _figure_cache (draw_matrix args_zeros
       (user_close 1 (draw_matrix args_zeros initial_world).1)).1 = ∅.
Proof. vm_compute. repeat split; reflexivity. Qed.

(** ** The heading, lines 157 to 162 *)

Lemma final_title_run (t : option string) (f : fig_ref) (w : World) :
  final_title t f w =
  (set_suptitles
     (if truthy t then <[fig_id f := default EmptyString t]> (suptitles w)
      else alter (λ _, EmptyString) (fig_id f) (suptitles w)) w,
   Ok ()).
Proof.
  unfold final_title. destruct (truthy t); [reflexivity|].
  rewrite bind_run. unfold fig_get_suptitle, gets.
  destruct (suptitles w !! fig_id f) as [s|] eqn:E; [reflexivity|].
  unfold mret, M_ret. f_equal.
  destruct w; unfold set_suptitles; simpl in *. f_equal.
  apply map_eq. intros i. rewrite lookup_alter.
  case_decide; [subst; by rewrite E | done].
Qed.

(** C8, counterexample.  A call with [title="A"] followed by the same call
    without a title, from a fresh process: the first call raises before it
    sets any heading, the second raises before it clears any, and the two
    calls do not even share a configuration key. *)
Lemma title_then_no_title_counterexample :
  (draw_matrix args_zeros_titled initial_world).2 = Raise weakref_error
  ∧ suptitles (draw_matrix args_zeros_titled initial_world).1 = ∅
  ∧ (draw_matrix args_zeros (draw_matrix args_zeros_titled initial_world).1).2
    = Raise weakref_error
  ∧ suptitles (draw_matrix args_zeros
                 (draw_matrix args_zeros_titled initial_world).1).1 = ∅
  ∧ figure_key args_zeros_titled 1 1 ≠ figure_key args_zeros 1 1.
Proof. vm_compute. repeat split; (reflexivity || discriminate). Qed.

(** C8, as amended.  The title step of lines 157 to 162, run on the figure
    the call holds, always succeeds; a non-empty title becomes the heading
    of that figure, whatever the heading was; without a title a heading
    that exists gets the empty text and a figure without heading stays
    without; other figures keep their heading.  The title is a component of
    the configuration key, so a call with a title and a call without one
    never address the same key. *)
Theorem title_step_sets_or_clears_heading
    (c : Ascii.ascii) (s : string) (f : fig_ref) (w : World) (a a' : Args) (gr gc gr' gc' : Z) :
  (final_title (Some (String c s)) f w).2 = Ok ()
  ∧ suptitles (final_title (Some (String c s)) f w).1 !! fig_id f
    = Some (String c s)
  ∧ (final_title None f w).2 = Ok ()
  ∧ suptitles (final_title None f w).1 !! fig_id f
    = (λ _, EmptyString) <$> suptitles w !! fig_id f
  ∧ delete (fig_id f) (suptitles (final_title (Some (String c s)) f w).1)
    = delete (fig_id f) (suptitles w)
  ∧ delete (fig_id f) (suptitles (final_title None f w).1)
    = delete (fig_id f) (suptitles w)
  ∧ figure_key (with_title (Some (String c s)) a) gr gc
    ≠ figure_key (with_title None a') gr' gc'.
Proof.
  rewrite !final_title_run. simpl.
  repeat split.
  - by rewrite lookup_insert_eq.
  - rewrite lookup_alter. by case_decide.
  - by rewrite delete_insert_eq.
  - apply map_eq. intros i. rewrite !lookup_delete, lookup_alter.
    by repeat case_decide.
  - discriminate.
Qed.



(** ** Slices and tiles *)

Section Slices.
Context {B : Type}.
Implicit Types l : list B.

Lemma slice_bound_in_range (len i : Z) :
  0 ≤ i ≤ len → slice_bound len i = i.
Proof. intros H. unfold slice_bound. destruct (i <? 0) eqn:E; lia. Qed.

Lemma slice_len_in_range (len : nat) (s e : Z) :
  0 ≤ s → s ≤ e → e ≤ Z.of_nat len → slice_len len s e = Z.to_nat (e - s).
Proof.
  intros. unfold slice_len. by rewrite !slice_bound_in_range by lia.
Qed.

Lemma py_slice_in_range l (s e : Z) :
  0 ≤ s → s ≤ e → e ≤ Z.of_nat (length l) →
  py_slice l s e = take (Z.to_nat (e - s)) (drop (Z.to_nat s) l).
Proof.
  intros. unfold py_slice.
  by rewrite slice_len_in_range, slice_bound_in_range by lia.
Qed.

Lemma py_slice_length l (s e : Z) :
  0 ≤ s → s ≤ e → e ≤ Z.of_nat (length l) →
  length (py_slice l s e) = Z.to_nat (e - s).
Proof.
  intros. rewrite py_slice_in_range by lia.
  rewrite length_take, length_drop. lia.
Qed.

Lemma py_slice_lookup l (s e : Z) (k : nat) :
  0 ≤ s → s ≤ e → e ≤ Z.of_nat (length l) → Z.of_nat k < e - s →
  py_slice l s e !! k = l !! (Z.to_nat s + k)%nat.
Proof.
  intros. rewrite py_slice_in_range by lia.
  rewrite lookup_take_lt by lia. apply lookup_drop.
Qed.

Lemma py_slice_app l (a b c : Z) :
  0 ≤ a → a ≤ b → b ≤ c → c ≤ Z.of_nat (length l) →
  py_slice l a b ++ py_slice l b c = py_slice l a c.
Proof.
  intros. rewrite !py_slice_in_range by lia.
  replace (Z.to_nat b) with (Z.to_nat a + Z.to_nat (b - a))%nat by lia.
  rewrite <- drop_drop, take_take_drop. f_equal. lia.
Qed.

Lemma py_slice_all l (n : Z) :
  n = Z.of_nat (length l) → py_slice l 0 n = l.
Proof.
  intros ->. rewrite py_slice_in_range by lia. simpl.
  rewrite drop_0. apply firstn_all2. lia.
Qed.

(** Consecutive slices of width [k], glued in order, give the slice
    that spans them. *)
Lemma concat_py_slices l (k : Z) (n : nat) :
  0 ≤ k → Z.of_nat n * k ≤ Z.of_nat (length l) →
  concat ((λ i, py_slice l (i * k) ((i + 1) * k)) <$> seqZ 0 (Z.of_nat n))
  = py_slice l 0 (Z.of_nat n * k).
Proof.
  intros Hk. induction n as [|n IH]; intros Hlen.
  - simpl. rewrite py_slice_in_range by lia. done.
  - rewrite seqZ_S, fmap_app, concat_app, IH by lia. simpl.
    rewrite app_nil_r, Z.add_0_l.
    replace ((Z.of_nat n + 1) * k) with (Z.of_nat (S n) * k) by lia.
    apply py_slice_app; nia.
Qed.

Lemma concat_py_slices_all l (k n : Z) :
  0 ≤ k → 0 ≤ n → Z.of_nat (length l) = n * k →
  concat ((λ i, py_slice l (i * k) ((i + 1) * k)) <$> seqZ 0 n) = l.
Proof.
  intros Hk Hn Hlen.
  rewrite <- (Z2Nat.id n) by lia.
  rewrite concat_py_slices by lia.
  apply py_slice_all. lia.
Qed.
End Slices.

Lemma norm_index_in_range (len : nat) (i : Z) :
  0 ≤ i < Z.of_nat len → norm_index len i = Some (Z.to_nat i).
Proof.
  intros H. unfold norm_index.
  destruct (i <? 0) eqn:E; [lia|].
  destruct (0 <=? i) eqn:E1; [|lia].
  destruct (i <? Z.of_nat len) eqn:E2; [done|lia].
Qed.

Lemma lookup_seqZ_0 (n i : Z) :
  0 ≤ i < n → seqZ 0 n !! Z.to_nat i = Some i.
Proof. intros H. rewrite lookup_seqZ_lt by lia. f_equal. lia. Qed.

Lemma getitem2_lookup {X} (a : list (list X)) (i j : Z) (row : list X) (x : X) :
  0 ≤ i → 0 ≤ j →
  a !! Z.to_nat i = Some row → row !! Z.to_nat j = Some x →
  getitem2 a i j = Ok x.
Proof.
  intros Hi Hj Hrow Hx. unfold getitem2.
  rewrite norm_index_in_range by (apply lookup_lt_Some in Hrow; lia).
  rewrite Hrow.
  rewrite norm_index_in_range by (apply lookup_lt_Some in Hx; lia).
  by rewrite Hx.
Qed.

Lemma getitem2_grid {X} (f : Z → Z → X) (n k i j : Z) :
  0 ≤ i < n → 0 ≤ j < k →
  getitem2 ((λ i, (λ j, f i j) <$> seqZ 0 k) <$> seqZ 0 n) i j = Ok (f i j).
Proof.
  intros Hi Hj.
  apply getitem2_lookup with (row := (λ j, f i j) <$> seqZ 0 k); try lia.
  - by rewrite list_lookup_fmap, lookup_seqZ_0.
  - by rewrite list_lookup_fmap, lookup_seqZ_0.
Qed.

Lemma quotient_remainder_unique (k i r i' r' : Z) :
  0 ≤ r < k → 0 ≤ r' < k → i * k + r = i' * k + r' → i = i' ∧ r = r'.
Proof.
  intros Hr Hr' Heq.
  assert (i = i') as ->; [|lia].
  destruct (Z.lt_trichotomy i i') as [Hlt|[->|Hlt]]; [exfalso|done|exfalso].
  - assert ((i + 1) * k ≤ i' * k) by nia. lia.
  - assert ((i' + 1) * k ≤ i * k) by nia. lia.
Qed.

Section Stacking.
Context {A : Type}.

Lemma zip_with_app_fmap {X} (f g : X → list A) (L : list X) :
  zip_with app (f <$> L) (g <$> L) = (λ ρ, f ρ ++ g ρ) <$> L.
Proof. induction L as [|ρ L IH]; [done|]. csimpl. by rewrite IH. Qed.

(** Tiles cut from the same rows [L], set side by side: row by row, the
    pieces are concatenated. *)
Lemma hstack_fmap_rows (L : list (list A)) (f : Z → list A → list A)
    (c : Z → nat) (js : list Z) :
  js ≠ [] →
  hstack ((λ j, Ndarray (f j <$> L) (c j)) <$> js)
  = Ndarray ((λ ρ, concat ((λ j, f j ρ) <$> js)) <$> L) (sum_list (c <$> js)).
Proof.
  induction js as [|j js IH]; [done|]. intros _.
  destruct js as [|j' js].
  - csimpl. f_equal; [|lia].
    apply list_fmap_ext. intros _ ρ _. by rewrite app_nil_r.
  - change (hstack ((λ j, Ndarray (f j <$> L) (c j)) <$> j :: j' :: js))
      with (hstack2 (Ndarray (f j <$> L) (c j))
              (hstack ((λ j, Ndarray (f j <$> L) (c j)) <$> j' :: js))).
    rewrite IH by done. unfold hstack2. simpl arr_rows. simpl arr_ncols.
    by rewrite zip_with_app_fmap.
Qed.
End Stacking.

(** ** The tiles partition the matrix *)

(** Give the tile height and width names, so that arithmetic sees them as
    plain unknowns. *)
Ltac name_tile_sizes :=
  repeat match goal with
         | H : context [Z.of_nat (nrows ?m) `div` ?g] |- _ =>
           set (tile_height := Z.of_nat (nrows m) `div` g) in *
         | |- context [Z.of_nat (nrows ?m) `div` ?g] =>
           set (tile_height := Z.of_nat (nrows m) `div` g) in *
         | H : context [Z.of_nat (arr_ncols ?m) `div` ?g] |- _ =>
           set (tile_width := Z.of_nat (arr_ncols m) `div` g) in *
         | |- context [Z.of_nat (arr_ncols ?m) `div` ?g] =>
           set (tile_width := Z.of_nat (arr_ncols m) `div` g) in *
         end.

Section Tiling.
Context {A : Type}.
Variable m : ndarray A.
Variables gr gc : Z.
Hypothesis m_wf : wf_ndarray m.
Hypothesis gr_pos : 0 < gr.
Hypothesis gc_pos : 0 < gc.
Hypothesis rows_divisible : Z.of_nat (nrows m) `mod` gr = 0.
Hypothesis cols_divisible : Z.of_nat (arr_ncols m) `mod` gc = 0.

Local Abbreviation tr := (Z.of_nat (nrows m) `div` gr).
Local Abbreviation tc := (Z.of_nat (arr_ncols m) `div` gc).

Lemma rows_eq : Z.of_nat (nrows m) = gr * tr.
Proof. apply Z_div_exact_full_2; [lia | exact rows_divisible]. Qed.

Lemma cols_eq : Z.of_nat (arr_ncols m) = gc * tc.
Proof. apply Z_div_exact_full_2; [lia | exact cols_divisible]. Qed.

Lemma tr_nonneg : 0 ≤ tr.
Proof. pose proof rows_eq. name_tile_sizes. nia. Qed.

Lemma tc_nonneg : 0 ≤ tc.
Proof. pose proof cols_eq. name_tile_sizes. nia. Qed.

Lemma row_bounds (i : Z) :
  0 ≤ i < gr →
  0 ≤ i * tr ∧ i * tr ≤ (i + 1) * tr ∧ (i + 1) * tr ≤ Z.of_nat (nrows m).
Proof. pose proof rows_eq. pose proof tr_nonneg. name_tile_sizes. nia. Qed.

Lemma col_bounds (j : Z) :
  0 ≤ j < gc →
  0 ≤ j * tc ∧ j * tc ≤ (j + 1) * tc ∧ (j + 1) * tc ≤ Z.of_nat (arr_ncols m).
Proof. pose proof cols_eq. pose proof tc_nonneg. name_tile_sizes. nia. Qed.

Lemma tile_shape (i j : Z) :
  0 ≤ i < gr → 0 ≤ j < gc → shape (tile_data m tr tc i j) = (tr, tc).
Proof.
  intros Hi Hj. destruct (row_bounds i Hi) as (?&?&?).
  destruct (col_bounds j Hj) as (?&?&?).
  name_tile_sizes. unfold shape, tile_data, slice2. unfold nrows in *. simpl.
  rewrite length_fmap, py_slice_length, slice_len_in_range by lia.
  f_equal; lia.
Qed.

Lemma tile_wf (i j : Z) :
  0 ≤ i < gr → 0 ≤ j < gc → wf_ndarray (tile_data m tr tc i j).
Proof.
  intros Hi Hj. destruct (row_bounds i Hi) as (?&?&?).
  destruct (col_bounds j Hj) as (?&?&?).
  name_tile_sizes. unfold wf_ndarray, tile_data, slice2. unfold nrows in *. simpl.
  apply Forall_fmap, Forall_lookup. intros k row Hrow. simpl.
  assert (length row = arr_ncols m) as Hlen.
  { unfold py_slice in Hrow. apply lookup_take_Some in Hrow as [Hrow _].
    rewrite lookup_drop in Hrow.
    exact (Forall_lookup_1 _ _ _ _ m_wf Hrow). }
  rewrite py_slice_length, slice_len_in_range by lia. done.
Qed.

Lemma tile_elem (i j r c : Z) :
  0 ≤ i < gr → 0 ≤ j < gc → 0 ≤ r < tr → 0 ≤ c < tc →
  elem (tile_data m tr tc i j) r c = elem m (i * tr + r) (j * tc + c).
Proof.
  intros Hi Hj Hr Hc. destruct (row_bounds i Hi) as (?&?&?).
  destruct (col_bounds j Hj) as (?&?&?).
  name_tile_sizes. unfold elem. unfold nrows in *.
  destruct (r <? 0) eqn:E1; [lia|]. destruct (c <? 0) eqn:E2; [lia|].
  destruct (i * tile_height + r <? 0) eqn:E3; [lia|].
  destruct (j * tile_width + c <? 0) eqn:E4; [lia|]. simpl.
  rewrite list_lookup_fmap, py_slice_lookup by lia.
  replace (Z.to_nat (i * tile_height) + Z.to_nat r)%nat
    with (Z.to_nat (i * tile_height + r)) by lia.
  destruct (arr_rows m !! Z.to_nat (i * tile_height + r)) as [row|] eqn:Hrow; [|done].
  simpl.
  pose proof (Forall_lookup_1 _ _ _ _ m_wf Hrow) as Hlen. simpl in Hlen.
  rewrite py_slice_lookup by lia. f_equal. lia.
Qed.

(** No two cells of two tiles are the same cell of the matrix, and every
    cell of the matrix is a cell of some tile. *)
Lemma tile_cells_disjoint (i j r c i' j' r' c' : Z) :
  0 ≤ i < gr → 0 ≤ j < gc → 0 ≤ r < tr → 0 ≤ c < tc →
  0 ≤ i' < gr → 0 ≤ j' < gc → 0 ≤ r' < tr → 0 ≤ c' < tc →
  i * tr + r = i' * tr + r' → j * tc + c = j' * tc + c' →
  i = i' ∧ j = j' ∧ r = r' ∧ c = c'.
Proof.
  intros _ _ Hr Hc _ _ Hr' Hc' Hrow Hcol.
  destruct (quotient_remainder_unique tr i r i' r' Hr Hr' Hrow).
  destruct (quotient_remainder_unique tc j c j' c' Hc Hc' Hcol).
  done.
Qed.

Lemma tile_cells_cover (R C : Z) :
  0 ≤ R < Z.of_nat (nrows m) → 0 ≤ C < Z.of_nat (arr_ncols m) →
  ∃ i j r c, 0 ≤ i < gr ∧ 0 ≤ j < gc ∧ 0 ≤ r < tr ∧ 0 ≤ c < tc
             ∧ R = i * tr + r ∧ C = j * tc + c.
Proof.
  intros HR HC. pose proof rows_eq as Hrows. pose proof cols_eq as Hcols.
  name_tile_sizes.
  assert (0 < tile_height) by nia. assert (0 < tile_width) by nia.
  exists (R `div` tile_height), (C `div` tile_width),
         (R `mod` tile_height), (C `mod` tile_width).
  pose proof (Z.div_mod R tile_height). pose proof (Z.mod_pos_bound R tile_height).
  pose proof (Z.div_mod C tile_width). pose proof (Z.mod_pos_bound C tile_width).
  assert (0 ≤ R `div` tile_height) by (apply Z.div_pos; lia).
  assert (0 ≤ C `div` tile_width) by (apply Z.div_pos; lia).
  assert (R `div` tile_height < gr) by (apply Z.div_lt_upper_bound; nia).
  assert (C `div` tile_width < gc) by (apply Z.div_lt_upper_bound; nia).
  repeat split; lia.
Qed.
Lemma hstack_tile_row (i : Z) :
  0 ≤ i < gr →
  hstack ((λ j, tile_data m tr tc i j) <$> seqZ 0 gc)
  = Ndarray (py_slice (arr_rows m) (i * tr) ((i + 1) * tr)) (arr_ncols m).
Proof.
  intros Hi. unfold tile_data, slice2.
  rewrite (hstack_fmap_rows
             (py_slice (arr_rows m) (i * tr) ((i + 1) * tr))
             (λ j row, py_slice row (j * tc) ((j + 1) * tc))
             (λ j, slice_len (arr_ncols m) (j * tc) ((j + 1) * tc)))
    by (rewrite seqZ_cons by lia; done).
  pose proof cols_eq as Hcols. pose proof tc_nonneg as Htc.
  name_tile_sizes. f_equal.
  - etrans; [|apply list_fmap_id].
    apply list_fmap_ext. intros k row Hrow. simpl.
    apply concat_py_slices_all; [lia..|].
    unfold py_slice in Hrow. apply lookup_take_Some in Hrow as [Hrow _].
    rewrite lookup_drop in Hrow.
    rewrite (Forall_lookup_1 _ _ _ _ m_wf Hrow). lia.
  - rewrite (sum_list_fmap_same (Z.to_nat tc)).
    + rewrite length_seqZ. nia.
    + apply Forall_seqZ. intros j Hj.
      destruct (col_bounds j) as (?&?&?); [lia|].
      rewrite slice_len_in_range by lia. lia.
Qed.

Lemma reassemble_tiles : reassemble (tiles m gr gc) = m.
Proof.
  unfold reassemble, tiles.
  rewrite <- list_fmap_compose.
  rewrite (Forall_fmap_ext_1 _
             (λ i, Ndarray (py_slice (arr_rows m) (i * tr) ((i + 1) * tr)) (arr_ncols m))).
  2:{ apply Forall_seqZ. intros i Hi. simpl. apply hstack_tile_row. lia. }
  unfold vstack. rewrite <- list_fmap_compose.
  pose proof rows_eq as Hrows. pose proof tr_nonneg as Htr.
  name_tile_sizes. unfold nrows in *.
  rewrite (seqZ_cons 0 gr) at 2 by lia. simpl.
  change (arr_rows ∘ _)
    with (λ i, py_slice (arr_rows m) (i * tile_height) ((i + 1) * tile_height)).
  rewrite concat_py_slices_all by lia.
  by destruct m.
Qed.

(** X18.  The slices of lines 125 and 145, taken over the grid in loop
    order for a matrix of shape rows x cols and positive grid dimensions
    that divide it: they form a grid of [gr] x [gc] tiles; the tile at
    grid position [(i, j)] has shape (rows/gr, cols/gc) and its cell
    [(r, c)] is the cell [(i * (rows/gr) + r, j * (cols/gc) + c)] of the
    matrix; distinct tile cells are distinct matrix cells and every
    matrix cell is a tile cell; and the tiles, put side by side and one
    under the other in grid order, give back the matrix. *)
Theorem tiles_partition_matrix :
  length (tiles m gr gc) = Z.to_nat gr
  ∧ Forall (λ row, length row = Z.to_nat gc) (tiles m gr gc)
  ∧ (∀ i j, 0 ≤ i < gr → 0 ≤ j < gc →
       getitem2 (tiles m gr gc) i j = Ok (tile_data m tr tc i j)
       ∧ wf_ndarray (tile_data m tr tc i j)
       ∧ shape (tile_data m tr tc i j) = (tr, tc)
       ∧ ∀ r c, 0 ≤ r < tr → 0 ≤ c < tc →
           elem (tile_data m tr tc i j) r c = elem m (i * tr + r) (j * tc + c))
  ∧ (∀ i j r c i' j' r' c',
       0 ≤ i < gr → 0 ≤ j < gc → 0 ≤ r < tr → 0 ≤ c < tc →
       0 ≤ i' < gr → 0 ≤ j' < gc → 0 ≤ r' < tr → 0 ≤ c' < tc →
       i * tr + r = i' * tr + r' → j * tc + c = j' * tc + c' →
       i = i' ∧ j = j' ∧ r = r' ∧ c = c')
  ∧ (∀ R C, 0 ≤ R < Z.of_nat (nrows m) → 0 ≤ C < Z.of_nat (arr_ncols m) →
       ∃ i j r c, 0 ≤ i < gr ∧ 0 ≤ j < gc ∧ 0 ≤ r < tr ∧ 0 ≤ c < tc
                  ∧ R = i * tr + r ∧ C = j * tc + c)
  ∧ reassemble (tiles m gr gc) = m.
Proof.
  split; [|split; [|split; [|split; [|split]]]].
  - unfold tiles. by rewrite length_fmap, length_seqZ.
  - unfold tiles. apply Forall_fmap, Forall_forall. intros i _. simpl.
    by rewrite length_fmap, length_seqZ.
  - intros i j Hi Hj. split; [|split; [|split]].
    + unfold tiles.
      apply (getitem2_grid (λ i j, tile_data m tr tc i j)); lia.
    + by apply tile_wf.
    + by apply tile_shape.
    + intros r c Hr Hc. by apply tile_elem.
  - apply tile_cells_disjoint.
  - apply tile_cells_cover.
  - apply reassemble_tiles.
Qed.
End Tiling.

(** ** Indexing with indices that are not negative *)

Lemma norm_index_nonneg (len : nat) (i : Z) :
  0 ≤ i →
  norm_index len i = if bool_decide (i < Z.of_nat len) then Some (Z.to_nat i) else None.
Proof.
  intros Hi. unfold norm_index.
  destruct (i <? 0) eqn:E; [lia|].
  destruct (0 <=? i) eqn:E1; [|lia]. simpl.
  case_bool_decide; destruct (i <? Z.of_nat len) eqn:E2; done || lia.
Qed.

Lemma getitem2_nonneg {X} (a : list (list X)) (i j : Z) :
  0 ≤ i → 0 ≤ j →
  getitem2 a i j =
  match a !! Z.to_nat i with
  | Some row =>
    match row !! Z.to_nat j with
    | Some x => Ok x
    | None => Raise index_error
    end
  | None => Raise index_error
  end.
Proof.
  intros Hi Hj. unfold getitem2. rewrite norm_index_nonneg by done.
  case_bool_decide as Hlen.
  - destruct (a !! Z.to_nat i) as [row|]; [|done].
    rewrite norm_index_nonneg by done.
    case_bool_decide as Hlen'; [done|].
    by rewrite lookup_ge_None_2 by lia.
  - by rewrite lookup_ge_None_2 by lia.
Qed.

Lemma setitem2_nonneg {X} (a : list (list X)) (i j : Z) (x : X) :
  0 ≤ i → 0 ≤ j →
  setitem2 a i j x =
  match a !! Z.to_nat i with
  | Some row =>
    if bool_decide (Z.to_nat j < length row)%nat
    then Ok (<[Z.to_nat i := <[Z.to_nat j := x]> row]> a)
    else Raise index_error
  | None => Raise index_error
  end.
Proof.
  intros Hi Hj. unfold setitem2. rewrite norm_index_nonneg by done.
  case_bool_decide as Hlen.
  - destruct (a !! Z.to_nat i) as [row|]; [|done].
    rewrite norm_index_nonneg by done.
    repeat case_bool_decide; done || lia.
  - by rewrite lookup_ge_None_2 by lia.
Qed.

(** Writing a cell that exists succeeds, the cell then reads as written and
    every other cell reads as before. *)
Lemma setitem2_getitem2 {X} (a : list (list X)) (i j : Z) (x y : X) :
  0 ≤ i → 0 ≤ j → getitem2 a i j = Ok y →
  ∃ a', setitem2 a i j x = Ok a'
        ∧ getitem2 a' i j = Ok x
        ∧ ∀ i' j', 0 ≤ i' → 0 ≤ j' → ¬ (i' = i ∧ j' = j) →
            getitem2 a' i' j' = getitem2 a i' j'.
Proof.
  intros Hi Hj. rewrite getitem2_nonneg, setitem2_nonneg by done.
  destruct (a !! Z.to_nat i) as [row|] eqn:Hrow; [|done].
  destruct (row !! Z.to_nat j) as [y'|] eqn:Hy; [|done]. intros _.
  pose proof (lookup_lt_Some _ _ _ Hrow) as Hlen.
  pose proof (lookup_lt_Some _ _ _ Hy) as Hlen'.
  rewrite bool_decide_eq_true_2 by done.
  eexists. split; [done|]. split.
  - rewrite getitem2_nonneg by done.
    rewrite list_lookup_insert_eq by done.
    by rewrite list_lookup_insert_eq by done.
  - intros i' j' Hi' Hj' Hne. rewrite !getitem2_nonneg by done.
    destruct (decide (Z.to_nat i = Z.to_nat i')) as [Heq|Hneq].
    + rewrite <- Heq, list_lookup_insert_eq, Hrow by done.
      rewrite list_lookup_insert_ne by lia. done.
    + by rewrite list_lookup_insert_ne by done.
Qed.

(** ** One cell of the rendering loops *)

Lemma image_at_Some (h : Handle) (w : World) (i j : Z) (im : nat) :
  image_at h w i j = Some im ↔ getitem2 (objects_of h w) i j = Ok (Some im).
Proof.
  unfold image_at. destruct (getitem2 (objects_of h w) i j) as [[im'|]|e]; naive_solver.
Qed.

Lemma update_existing_image_run (im : nat) (d : imdata) (cm : colormap) (lo hi : Z) (w : World) :
  (im_set_data im d;; im_set_cmap im cm;; im_set_clim im lo hi) w
  = (set_images (alter (λ _, mkImage d cm (lo, hi)) im (images w)) w, Ok ()).
Proof.
  unfold im_set_data, im_set_cmap, im_set_clim, modify. rewrite !bind_run.
  f_equal. destruct w; unfold set_images; simpl. f_equal.
  apply map_eq. intros k. rewrite !lookup_alter.
  repeat case_decide; subst; try done. by destruct (images0 !! _).
Qed.

Lemma show_cell_step (gr gc : Z) (h : Handle) (w : World) (i j : Z)
    (d : imdata) (cm : colormap) (lo hi : Z) :
  handle_ok gr gc h w → 0 ≤ i < gr → 0 ≤ j < gc →
  ∃ w', (ax ← lift (getitem2 (axes h) i j); show_tile h i j ax d cm lo hi) w = (w', Ok ())
    ∧ handle_ok gr gc h w'
    ∧ cell_shows h w' i j (mkImage d cm (lo, hi))
    ∧ (∀ i' j' img, 0 ≤ i' < gr → 0 ≤ j' < gc → ¬ (i' = i ∧ j' = j) →
         cell_shows h w i' j' img → cell_shows h w' i' j' img)
    ∧ (∀ i' j' im, 0 ≤ i' < gr → 0 ≤ j' < gc →
         image_at h w i' j' = Some im → image_at h w' i' j' = Some im).
Proof.
  intros [Hax Hobj Himg Hdist Hfresh] Hi Hj.
  destruct (Hax i j Hi Hj) as [ax Eax].
  destruct (Hobj i j Hi Hj) as [cur Ecur].
  rewrite bind_run. unfold lift at 1. rewrite Eax.
  unfold show_tile. rewrite bind_run. unfold image_objects_get.
  fold (objects_of h w). rewrite Ecur.
  destruct cur as [im|].
  - (* the cell has an image: it is updated in place *)
    rewrite update_existing_image_run.
    set (w' := set_images _ w).
    assert (Hsame : objects_of h w' = objects_of h w) by reflexivity.
    assert (Hat : ∀ i' j', image_at h w' i' j' = image_at h w i' j').
    { intros. unfold image_at. by rewrite Hsame. }
    assert (Him : image_at h w i j = Some im) by by apply image_at_Some.
    destruct (Himg i j im Hi Hj Him) as [old Hold].
    assert (Hlk : ∀ k, images w' !! k
                   = if decide (k = im) then Some (mkImage d cm (lo, hi)) else images w !! k).
    { intros k. subst w'. simpl. rewrite lookup_alter.
      case_decide as E; case_decide as E'; subst; try done. by rewrite Hold. }
    exists w'. split; [done|]. split; [|split; [|split]].
    + split.
      * done.
      * intros. rewrite Hsame. eauto.
      * intros i' j' im' Hi' Hj'. rewrite Hat, Hlk. intros H.
        case_decide; [done|]. eauto.
      * intros i1 j1 i2 j2 im'. rewrite !Hat. eauto.
      * intros k. rewrite Hlk. case_decide; [subst; intros _|]; apply Hfresh; eauto.
    + exists im. rewrite Hat, Hlk. split; [done|]. by case_decide.
    + intros i' j' img Hi' Hj' Hne [im' [Hat' Himg']].
      exists im'. rewrite Hat, Hlk. split; [done|].
      case_decide as E; [|done]. subst im'.
      destruct (Hdist i' j' i j im Hi' Hj' Hi Hj Hat' Him). tauto.
    + intros. by rewrite Hat.
  - (* the cell is empty: a new image is created and registered *)
    rewrite bind_run. unfold ax_imshow at 1.
    set (im := next_id w).
    set (w3 := set_axes_store _ _).
    assert (Hsame3 : objects_of h w3 = objects_of h w) by reflexivity.
    destruct (setitem2_getitem2 (objects_of h w) i j (Some im) None)
      as (arr' & Eset & Eget & Eother); [lia | lia | done |].
    unfold image_objects_set. fold (objects_of h w3). rewrite Hsame3, Eset.
    set (w' := set_object_arrays _ w3).
    assert (Harr : objects_of h w' = arr').
    { unfold objects_of. subst w'. simpl. by rewrite lookup_insert_eq. }
    assert (Hlk : ∀ k, images w' !! k
                   = if decide (k = im) then Some (mkImage d cm (lo, hi)) else images w !! k).
    { intros k. subst w' w3. simpl. rewrite lookup_insert.
      repeat case_decide; subst; done. }
    assert (Hat_new : image_at h w' i j = Some im).
    { apply image_at_Some. by rewrite Harr. }
    assert (Hat : ∀ i' j', 0 ≤ i' → 0 ≤ j' → ¬ (i' = i ∧ j' = j) →
                    image_at h w' i' j' = image_at h w i' j').
    { intros i' j' Hi' Hj' Hne. unfold image_at. rewrite Harr. by rewrite Eother. }
    assert (Hold_lt : ∀ i' j' im', 0 ≤ i' < gr → 0 ≤ j' < gc →
                        image_at h w i' j' = Some im' → (im' < im)%nat).
    { intros i' j' im' Hi' Hj' H. apply Hfresh. eauto. }
    assert (Hempty : image_at h w i j = None).
    { unfold image_at. by rewrite Ecur. }
    exists w'. split; [done|]. split; [|split; [|split]].
    + split.
      * done.
      * intros i' j' Hi' Hj'. rewrite Harr.
        destruct (decide (i' = i ∧ j' = j)) as [[-> ->]|Hne]; [eauto|].
        rewrite Eother by lia. eauto.
      * intros i' j' im' Hi' Hj'. rewrite Hlk.
        destruct (decide (i' = i ∧ j' = j)) as [[-> ->]|Hne].
        -- rewrite Hat_new. intros [= <-]. by case_decide.
        -- rewrite Hat by lia. intros H. case_decide; [done|]. eauto.
      * intros i1 j1 i2 j2 im' Hi1 Hj1 Hi2 Hj2.
        destruct (decide (i1 = i ∧ j1 = j)) as [[-> ->]|Hne1];
          destruct (decide (i2 = i ∧ j2 = j)) as [[-> ->]|Hne2]; try done.
        -- rewrite Hat_new, Hat by lia. intros [= <-] H.
           pose proof (Hold_lt _ _ _ Hi2 Hj2 H). lia.
        -- rewrite Hat_new, Hat by lia. intros H [= <-].
           pose proof (Hold_lt _ _ _ Hi1 Hj1 H). lia.
        -- rewrite !Hat by lia. eauto.
      * intros k. rewrite Hlk. subst w' w3. simpl.
        case_decide as E; [subst; lia|]. intros Hk. apply Hfresh in Hk. fold im. lia.
    + exists im. rewrite Hlk. split; [done|]. by case_decide.
    + intros i' j' img Hi' Hj' Hne [im' [Hat' Himg']].
      exists im'. rewrite Hat, Hlk by lia. split; [done|].
      case_decide as E; [|done]. subst im'.
      pose proof (Hold_lt _ _ _ Hi' Hj' Hat'). lia.
    + intros i' j' im' Hi' Hj' H.
      destruct (decide (i' = i ∧ j' = j)) as [[-> ->]|Hne]; [congruence|].
      by rewrite Hat by lia.
Qed.

(** ** The rendering loops *)

Lemma for_app {X} (l1 l2 : list X) (body : X → M unit) (w : World) :
  for_ (l1 ++ l2) body w = (for_ l1 body;; for_ l2 body) w.
Proof.
  revert w. induction l1 as [|x l1 IH]; intros w; simpl.
  - done.
  - rewrite !bind_run. destruct (body x w) as [w1 [[]|e]]; [|done].
    rewrite IH. by rewrite bind_run.
Qed.

(** A loop over [range(n)] whose body succeeds and carries an invariant
    from [k] to [k + 1] succeeds and carries it from 0 to [n]. *)
Lemma for_range_invariant (P : nat → World → Prop) (n : nat) (body : Z → M unit)
    (w : World) :
  P 0%nat w →
  (∀ k w1, (k < n)%nat → P k w1 →
     ∃ w2, body (Z.of_nat k) w1 = (w2, Ok ()) ∧ P (S k) w2) →
  ∃ w', for_ (range (Z.of_nat n)) body w = (w', Ok ()) ∧ P n w'.
Proof.
  intros H0 Hstep. induction n as [|n IH].
  - exists w. by split.
  - destruct IH as (w1 & Hrun & HP).
    { intros k w1 Hk. apply Hstep. lia. }
    destruct (Hstep n w1) as (w2 & Hbody & HP2); [lia | done |].
    exists w2. split; [|done].
    unfold range. rewrite seqZ_S, for_app, bind_run.
    unfold range in Hrun. rewrite Hrun. simpl.
    rewrite Z.add_0_l, bind_run, Hbody. done.
Qed.

Section RenderLoop.
Variables (gr gc : Z) (h : Handle).
Variable tile : Z → Z → imdata.
Variables (cm : colormap) (lo hi : Z).
Variable w0 : World.
Hypothesis gr_nonneg : 0 ≤ gr.
Hypothesis gc_nonneg : 0 ≤ gc.

Local Abbreviation loop_invariant := (loop_invariant gr gc h tile cm lo hi w0).

Lemma inner_loop_spec (i : Z) (w : World) :
  0 ≤ i < gr →
  loop_invariant (λ i' _, i' < i) w →
  ∃ w', for_ (range gc) (λ j,
          ax ← lift (getitem2 (axes h) i j);
          show_tile h i j ax (tile i j) cm lo hi) w = (w', Ok ())
        ∧ loop_invariant (λ i' _, i' < i + 1) w'.
Proof.
  intros Hi Hinv.
  destruct (for_range_invariant
    (λ l w1, loop_invariant (λ i' j', i' < i ∨ (i' = i ∧ j' < Z.of_nat l)) w1)
    (Z.to_nat gc)
    (λ j, ax ← lift (getitem2 (axes h) i j); show_tile h i j ax (tile i j) cm lo hi)
    w) as (w' & Hrun & Hok & Hshown & Hkept).
  - destruct Hinv as (Hok & Hshown & Hkept).
    split; [done|]. split; [|done].
    intros i' j' Hi' Hj' [?|[_ ?]]; [eauto | lia].
  - intros l w1 Hl (Hok & Hshown & Hkept).
    destruct (show_cell_step gr gc h w1 i (Z.of_nat l) (tile i (Z.of_nat l)) cm lo hi)
      as (w2 & Hrun & Hok2 & Hnew & Hothers & Hids); [done | lia | lia |].
    exists w2. split; [done|]. split; [done|]. split.
    + intros i' j' Hi' Hj' Hvis.
      destruct (decide (i' = i ∧ j' = Z.of_nat l)) as [[-> ->]|Hne]; [done|].
      apply Hothers; [done..|]. apply Hshown; [done..|]. lia.
    + intros i' j' im Hi' Hj' H. apply Hids; [done..|]. by apply Hkept.
  - rewrite Z2Nat.id in Hrun by lia.
    exists w'. split; [done|]. split; [done|]. split; [|done].
    intros i' j' Hi' Hj' Hvis. apply Hshown; [done..|]. lia.
Qed.

Lemma render_loop_spec :
  handle_ok gr gc h w0 →
  ∃ w', render_loop h gr gc tile cm lo hi w0 = (w', Ok ())
        ∧ handle_ok gr gc h w'
        ∧ (∀ i j, 0 ≤ i < gr → 0 ≤ j < gc →
             cell_shows h w' i j (mkImage (tile i j) cm (lo, hi)))
        ∧ (∀ i j im, 0 ≤ i < gr → 0 ≤ j < gc →
             image_at h w0 i j = Some im → image_at h w' i j = Some im).
Proof.
  intros Hok0.
  destruct (for_range_invariant
    (λ k w1, loop_invariant (λ i' _, i' < Z.of_nat k) w1)
    (Z.to_nat gr)
    (λ i, for_ (range gc) (λ j,
            ax ← lift (getitem2 (axes h) i j);
            show_tile h i j ax (tile i j) cm lo hi))
    w0) as (w' & Hrun & Hok & Hshown & Hkept).
  - split; [done|]. split; [|done]. intros; lia.
  - intros k w1 Hk Hinv.
    destruct (inner_loop_spec (Z.of_nat k) w1) as (w2 & Hrun & Hinv2); [lia | done |].
    exists w2. split; [done|].
    destruct Hinv2 as (Hok2 & Hshown2 & Hkept2).
    split; [done|]. split; [|done].
    intros i' j' Hi' Hj' Hvis. apply Hshown2; [done..|]. lia.
  - rewrite Z2Nat.id in Hrun by lia.
    exists w'. split; [done|]. split; [done|]. split; [|done].
    intros i j Hi Hj. apply Hshown; [done..|]. lia.
Qed.
End RenderLoop.

(** ** The handle built by the creation path is well formed *)

Lemma fresh_axes_getitem (base n m : nat) (i j : Z) :
  0 ≤ i < Z.of_nat n → 0 ≤ j < Z.of_nat m →
  getitem2 (fresh_axes base n m) i j
  = Ok (base + Z.to_nat i * m + Z.to_nat j)%nat.
Proof.
  intros Hi Hj. unfold fresh_axes.
  apply getitem2_lookup
    with (row := (λ j, base + Z.to_nat i * m + j)%nat <$> seq 0 m); try lia.
  - rewrite list_lookup_fmap, lookup_seq_lt by lia. done.
  - rewrite list_lookup_fmap, lookup_seq_lt by lia. done.
Qed.

Lemma replicate_getitem {X} (n m : nat) (x : X) (i j : Z) :
  0 ≤ i < Z.of_nat n → 0 ≤ j < Z.of_nat m →
  getitem2 (replicate n (replicate m x)) i j = Ok x.
Proof.
  intros Hi Hj. apply getitem2_lookup with (row := replicate m x); try lia.
  - apply lookup_replicate_2. lia.
  - apply lookup_replicate_2. lia.
Qed.

Lemma created_handle_ok (gr gc : Z) (sz : positive * positive) (w : World) :
  0 < gr → 0 < gc →
  (∀ im, is_Some (images w !! im) → (im < next_id w)%nat) →
  handle_ok gr gc (created_handle gr gc sz w) (world_after_creation gr gc sz w).
Proof.
  intros Hgr Hgc Hfresh.
  assert (Hobj : objects_of (created_handle gr gc sz w) (world_after_creation gr gc sz w)
                 = replicate (Z.to_nat gr) (replicate (Z.to_nat gc) None)).
  { unfold objects_of, created_handle, world_after_creation. simpl.
    by rewrite lookup_insert_eq. }
  assert (Hnone : ∀ i j, 0 ≤ i < gr → 0 ≤ j < gc →
            image_at (created_handle gr gc sz w) (world_after_creation gr gc sz w) i j = None).
  { intros i j Hi Hj. unfold image_at. rewrite Hobj, replicate_getitem by lia. done. }
  split.
  - intros i j Hi Hj. simpl. rewrite fresh_axes_getitem by lia. eauto.
  - intros i j Hi Hj. rewrite Hobj, replicate_getitem by lia. eauto.
  - intros i j im Hi Hj. by rewrite Hnone.
  - intros i j i' j' im Hi Hj _ _. by rewrite Hnone.
  - intros im H. apply Hfresh in H.
    unfold world_after_creation. simpl. lia.
Qed.

Lemma handle_2x2_ok : handle_ok 2 2 handle_2x2 world_2x2.
Proof.
  apply (created_handle_ok 2 2 (6%positive, 6%positive) initial_world); [lia..|].
  intros im [x Hx]. simpl in Hx. by rewrite lookup_empty in Hx.
Qed.

(** ** Elements of arrays *)

Lemma elem_ndarray_map {X Y} (f : X → Y) (a : ndarray X) (r c : Z) :
  elem (ndarray_map f a) r c = f <$> elem a r c.
Proof.
  unfold elem, ndarray_map. simpl.
  destruct ((r <? 0) || (c <? 0)); [done|].
  change (map (map f) (arr_rows a)) with (fmap (M:=list) (fmap (M:=list) f) (arr_rows a)).
  rewrite list_lookup_fmap.
  destruct (arr_rows a !! Z.to_nat r) as [row|]; [|done]. simpl.
  by rewrite list_lookup_fmap.
Qed.

Lemma wf_ndarray_map {X Y} (f : X → Y) (a : ndarray X) :
  wf_ndarray a → wf_ndarray (ndarray_map f a).
Proof.
  unfold wf_ndarray, ndarray_map. simpl. intros H.
  change (map (map f) (arr_rows a)) with (fmap (M:=list) (fmap (M:=list) f) (arr_rows a)).
  apply Forall_fmap. eapply Forall_impl; [exact H|].
  intros row Hrow. simpl. by rewrite length_fmap.
Qed.

Lemma nrows_ndarray_map {X Y} (f : X → Y) (a : ndarray X) :
  nrows (ndarray_map f a) = nrows a.
Proof. unfold nrows, ndarray_map. simpl. apply length_map. Qed.

Lemma elem_in_range {X} (a : ndarray X) (r c : Z) :
  wf_ndarray a → 0 ≤ r < Z.of_nat (nrows a) → 0 ≤ c < Z.of_nat (arr_ncols a) →
  ∃ x, elem a r c = Some x.
Proof.
  intros Hwf Hr Hc. unfold elem.
  destruct (r <? 0) eqn:E1; [lia|]. destruct (c <? 0) eqn:E2; [lia|]. simpl.
  destruct (lookup_lt_is_Some_2 (arr_rows a) (Z.to_nat r)) as [row Hrow];
    [unfold nrows in Hr; lia|].
  rewrite Hrow. simpl.
  pose proof (Forall_lookup_1 _ _ _ _ Hwf Hrow) as Hlen. simpl in Hlen.
  apply lookup_lt_is_Some_2. lia.
Qed.

Lemma elem_of_flat {X} (a : ndarray X) (x : X) :
  x ∈ flat a ↔ ∃ r c, elem a r c = Some x.
Proof.
  unfold flat. rewrite list_elem_of_In, in_concat. split.
  - intros (row & Hrow & Hx).
    apply list_elem_of_In, list_elem_of_lookup in Hrow as [r Hr].
    apply list_elem_of_In, list_elem_of_lookup in Hx as [c Hc].
    exists (Z.of_nat r), (Z.of_nat c). unfold elem.
    destruct (Z.of_nat r <? 0) eqn:E1; [apply Z.ltb_lt in E1; lia|].
    destruct (Z.of_nat c <? 0) eqn:E2; [apply Z.ltb_lt in E2; lia|]. simpl.
    rewrite !Nat2Z.id, Hr. simpl. done.
  - intros (r & c & H). unfold elem in H.
    destruct ((r <? 0) || (c <? 0)); [done|].
    destruct (arr_rows a !! Z.to_nat r) as [row|] eqn:Hrow; [|done].
    simpl in H. exists row. split.
    + apply list_elem_of_In, list_elem_of_lookup. eauto.
    + apply list_elem_of_In, list_elem_of_lookup. eauto.
Qed.

Lemma foldl_min_le_init (xs : list Z) (x : Z) : foldl Z.min x xs ≤ x.
Proof.
  revert x. induction xs as [|z xs IH]; intros x; simpl; [lia|].
  specialize (IH (Z.min x z)). lia.
Qed.

Lemma foldl_min_le (xs : list Z) (x y : Z) :
  y ∈ x :: xs → foldl Z.min x xs ≤ y.
Proof.
  revert x. induction xs as [|z xs IH]; intros x Hy; simpl.
  - apply list_elem_of_singleton in Hy. lia.
  - pose proof (foldl_min_le_init xs (Z.min x z)).
    apply elem_of_cons in Hy as [->|Hy]; [lia|].
    apply elem_of_cons in Hy as [->|Hy]; [lia|].
    apply IH. by right.
Qed.

Lemma foldl_min_elem (xs : list Z) (x : Z) : foldl Z.min x xs ∈ x :: xs.
Proof.
  revert x. induction xs as [|z xs IH]; intros x; simpl; [left|].
  specialize (IH (Z.min x z)).
  apply elem_of_cons in IH as [->|IH]; [|by do 2 right].
  destruct (Z.min_spec x z) as [[_ ->]|[_ ->]]; [left | right; left].
Qed.

Lemma foldl_max_ge_init (xs : list Z) (x : Z) : x ≤ foldl Z.max x xs.
Proof.
  revert x. induction xs as [|z xs IH]; intros x; simpl; [lia|].
  specialize (IH (Z.max x z)). lia.
Qed.

Lemma foldl_max_ge (xs : list Z) (x y : Z) :
  y ∈ x :: xs → y ≤ foldl Z.max x xs.
Proof.
  revert x. induction xs as [|z xs IH]; intros x Hy; simpl.
  - apply list_elem_of_singleton in Hy. lia.
  - pose proof (foldl_max_ge_init xs (Z.max x z)).
    apply elem_of_cons in Hy as [->|Hy]; [lia|].
    apply elem_of_cons in Hy as [->|Hy]; [lia|].
    apply IH. by right.
Qed.

Lemma foldl_max_elem (xs : list Z) (x : Z) : foldl Z.max x xs ∈ x :: xs.
Proof.
  revert x. induction xs as [|z xs IH]; intros x; simpl; [left|].
  specialize (IH (Z.max x z)).
  apply elem_of_cons in IH as [->|IH]; [|by do 2 right].
  destruct (Z.max_spec x z) as [[_ ->]|[_ ->]]; [right; left | left].
Qed.

(** [np.min] and [np.max] of an array that has an element: the least and
    the greatest of its elements. *)
Lemma np_min_max_spec (m : ndarray Z) :
  wf_ndarray m → (0 < nrows m)%nat → (0 < arr_ncols m)%nat →
  ∃ mn mx, np_min m = Ok mn ∧ np_max m = Ok mx
    ∧ (∀ r c x, elem m r c = Some x → mn ≤ x ≤ mx)
    ∧ (∃ r c, elem m r c = Some mn)
    ∧ (∃ r c, elem m r c = Some mx).
Proof.
  intros Hwf Hr Hc. unfold np_min, np_max.
  destruct (flat m) as [|x xs] eqn:Hflat.
  - exfalso. destruct (elem_in_range m 0 0 Hwf) as [x Hx]; [lia..|].
    assert (x ∈ flat m) as Hin by (apply elem_of_flat; eauto).
    rewrite Hflat in Hin. by apply not_elem_of_nil in Hin.
  - exists (foldl Z.min x xs), (foldl Z.max x xs).
    split; [done|]. split; [done|]. split; [|split].
    + intros r c y Hy.
      assert (y ∈ x :: xs) by (rewrite <- Hflat; apply elem_of_flat; eauto).
      split; [by apply foldl_min_le | by apply foldl_max_ge].
    + apply elem_of_flat. rewrite Hflat. apply foldl_min_elem.
    + apply elem_of_flat. rewrite Hflat. apply foldl_max_elem.
Qed.

(** ** What the rendering loops show *)

Lemma update_images_binary (h : Handle) (a : Args) (m : ndarray Z) (gr gc tr tc : Z) :
  mode a = "binary" →
  update_images h a m gr gc tr tc
  = render_loop h gr gc (λ i j, BoolData (tile_data (gt0 m) tr tc i j)) binary_cmap 0 1.
Proof. intros Hmode. unfold update_images. by rewrite Hmode. Qed.

Lemma update_images_color (h : Handle) (a : Args) (m : ndarray Z) (gr gc tr tc : Z)
    (mn mx : Z) (w : World) :
  mode a = "color" → np_min m = Ok mn → np_max m = Ok mx →
  update_images h a m gr gc tr tc w
  = render_loop h gr gc (λ i j, NumData (tile_data m tr tc i j))
      (NamedColormap (default "viridis" (cmap a)))
      (default mn (vmin a)) (default mx (vmax a)) w.
Proof.
  intros Hmode Hmin Hmax. unfold update_images, update_color. rewrite Hmode. simpl.
  rewrite bind_run.
  assert (match vmin a with Some v => mret v | None => lift (np_min m) end w
          = (w, Ok (default mn (vmin a)))) as ->.
  { destruct (vmin a); [done|]. unfold lift. by rewrite Hmin. }
  rewrite bind_run.
  assert (match vmax a with Some v => mret v | None => lift (np_max m) end w
          = (w, Ok (default mx (vmax a)))) as ->.
  { destruct (vmax a); [done|]. unfold lift. by rewrite Hmax. }
  reflexivity.
Qed.

Lemma binary_pixel (m : ndarray Z) (gr gc i j r c : Z) :
  wf_ndarray m → 0 < gr → 0 < gc →
  Z.of_nat (nrows m) `mod` gr = 0 → Z.of_nat (arr_ncols m) `mod` gc = 0 →
  0 ≤ i < gr → 0 ≤ j < gc →
  0 ≤ r < Z.of_nat (nrows m) `div` gr → 0 ≤ c < Z.of_nat (arr_ncols m) `div` gc →
  ∃ x, elem m (i * (Z.of_nat (nrows m) `div` gr) + r)
              (j * (Z.of_nat (arr_ncols m) `div` gc) + c) = Some x
       ∧ elem (tile_data (gt0 m) (Z.of_nat (nrows m) `div` gr)
                 (Z.of_nat (arr_ncols m) `div` gc) i j) r c = Some (0 <? x).
Proof.
  intros Hwf Hgr Hgc Hrows Hcols Hi Hj Hr Hc.
  set (tr := Z.of_nat (nrows m) `div` gr) in *.
  set (tc := Z.of_nat (arr_ncols m) `div` gc) in *.
  assert (Z.of_nat (nrows m) = gr * tr) as Erows
    by (apply Z_div_exact_full_2; [lia | done]).
  assert (Z.of_nat (arr_ncols m) = gc * tc) as Ecols
    by (apply Z_div_exact_full_2; [lia | done]).
  destruct (elem_in_range m (i * tr + r) (j * tc + c) Hwf) as [x Hx]; [nia | nia |].
  exists x. split; [done|].
  pose proof (tile_elem (gt0 m) gr gc (wf_ndarray_map _ m Hwf) Hgr Hgc) as Htile.
  assert (nrows (gt0 m) = nrows m) as En by apply nrows_ndarray_map.
  rewrite En in Htile. change (arr_ncols (gt0 m)) with (arr_ncols m) in Htile.
  fold tr tc in Htile.
  rewrite (Htile Hrows Hcols i j r c Hi Hj Hr Hc).
  unfold gt0. by rewrite elem_ndarray_map, Hx.
Qed.

(** X19.  The rendering loops of lines 115 to 134, run in mode 'binary'
    on a well-formed handle: they succeed and every grid cell [(i, j)]
    then holds an image with the two-colour palette black, white, the
    range (0, 1), and as data the tile of [matrix > 0]; the pixel [(r, c)]
    of that image is white when the matrix element under it is greater
    than 0 and black otherwise.  So a matrix without a positive element
    gives only black pixels and a matrix of positive elements only white
    ones. *)
Theorem binary_mode_thresholds_each_element
    (a : Args) (h : Handle) (m : ndarray Z) (gr gc : Z) (w : World) :
  mode a = "binary" → wf_ndarray m → 0 < gr → 0 < gc →
  Z.of_nat (nrows m) `mod` gr = 0 → Z.of_nat (arr_ncols m) `mod` gc = 0 →
  handle_ok gr gc h w →
  let tr := Z.of_nat (nrows m) `div` gr in
  let tc := Z.of_nat (arr_ncols m) `div` gc in
  ∃ w', update_images h a m gr gc tr tc w = (w', Ok ())
    ∧ (∀ i j, 0 ≤ i < gr → 0 ≤ j < gc →
         ∃ img, cell_shows h w' i j img
           ∧ im_cmap img = ListedColormap ["black"; "white"]
           ∧ im_clim img = (0, 1)
           ∧ im_data img = BoolData (tile_data (gt0 m) tr tc i j)
           ∧ ∀ r c, 0 ≤ r < tr → 0 ≤ c < tc →
               ∃ x, elem m (i * tr + r) (j * tc + c) = Some x
                 ∧ pixel_value (im_data img) r c = Some (bool_value (0 <? x))
                 ∧ pixel_colour img r c = Some (if 0 <? x then "white" else "black"))
    ∧ ((∀ r c x, elem m r c = Some x → x ≤ 0) →
       ∀ i j r c, 0 ≤ i < gr → 0 ≤ j < gc → 0 ≤ r < tr → 0 ≤ c < tc →
         ∃ img, cell_shows h w' i j img ∧ pixel_colour img r c = Some "black")
    ∧ ((∀ r c x, elem m r c = Some x → 0 < x) →
       ∀ i j r c, 0 ≤ i < gr → 0 ≤ j < gc → 0 ≤ r < tr → 0 ≤ c < tc →
         ∃ img, cell_shows h w' i j img ∧ pixel_colour img r c = Some "white").
Proof.
  intros Hmode Hwf Hgr Hgc Hrows Hcols Hok tr tc.
  rewrite (update_images_binary h a m gr gc tr tc Hmode).
  destruct (render_loop_spec gr gc h
              (λ i j, BoolData (tile_data (gt0 m) tr tc i j)) binary_cmap 0 1 w)
    as (w' & Hrun & _ & Hshown & _); [lia | lia | done |].
  assert (Hcell : ∀ i j, 0 ≤ i < gr → 0 ≤ j < gc →
            ∃ img, cell_shows h w' i j img
              ∧ im_cmap img = ListedColormap ["black"; "white"]
              ∧ im_clim img = (0, 1)
              ∧ im_data img = BoolData (tile_data (gt0 m) tr tc i j)
              ∧ ∀ r c, 0 ≤ r < tr → 0 ≤ c < tc →
                  ∃ x, elem m (i * tr + r) (j * tc + c) = Some x
                    ∧ pixel_value (im_data img) r c = Some (bool_value (0 <? x))
                    ∧ pixel_colour img r c = Some (if 0 <? x then "white" else "black")).
  { intros i j Hi Hj. eexists. split; [by apply Hshown|]. repeat split.
    intros r c Hr Hc.
    destruct (binary_pixel m gr gc i j r c) as (x & Hx & Htile); try done.
    fold tr tc in Hx, Htile.
    exists x. split; [done|].
    unfold pixel_colour. simpl. rewrite Htile. simpl. split; [done|].
    by destruct (0 <? x). }
  exists w'. split; [done|]. split; [done|]. split.
  - intros Hneg i j r c Hi Hj Hr Hc.
    destruct (Hcell i j Hi Hj) as (img & Himg & _ & _ & _ & Hpix).
    destruct (Hpix r c Hr Hc) as (x & Hx & _ & Hcol).
    exists img. split; [done|]. rewrite Hcol.
    apply Hneg in Hx. by destruct (0 <? x) eqn:E; [apply Z.ltb_lt in E; lia|].
  - intros Hpos i j r c Hi Hj Hr Hc.
    destruct (Hcell i j Hi Hj) as (img & Himg & _ & _ & _ & Hpix).
    destruct (Hpix r c Hr Hc) as (x & Hx & _ & Hcol).
    exists img. split; [done|]. rewrite Hcol.
    apply Hpos in Hx. by destruct (0 <? x) eqn:E; [|apply Z.ltb_ge in E; lia].
Qed.

(** Without an element there is no least element: with [vmin] absent the
    rendering of an empty matrix stops at [np.min], before any tile. *)
Lemma update_images_color_empty (h : Handle) (a : Args) (m : ndarray Z)
    (gr gc tr tc : Z) (w : World) :
  mode a = "color" → vmin a = None → flat m = [] →
  update_images h a m gr gc tr tc w
  = (w, Raise (ValueError
       "zero-size array to reduction operation minimum which has no identity")).
Proof.
  intros Hmode Hvmin Hflat. unfold update_images, update_color.
  rewrite Hmode, Hvmin. simpl. rewrite bind_run.
  unfold lift, np_min. by rewrite Hflat.
Qed.

(** X20.  The rendering loops of lines 136 to 154, run in mode 'color'
    on a well-formed handle for a matrix that has at least one row and one
    column: they succeed and every grid cell then holds an image whose
    data is the raw tile, whose palette is the one named by [cmap],
    'viridis' when [cmap] is absent, and whose range is ([vmin], [vmax])
    where supplied and otherwise the least and the greatest element of
    the whole matrix, the same for every tile. *)
Theorem color_mode_uses_whole_matrix_range
    (a : Args) (h : Handle) (m : ndarray Z) (gr gc : Z) (w : World) :
  mode a = "color" → wf_ndarray m →
  (0 < nrows m)%nat → (0 < arr_ncols m)%nat →
  0 < gr → 0 < gc → handle_ok gr gc h w →
  let tr := Z.of_nat (nrows m) `div` gr in
  let tc := Z.of_nat (arr_ncols m) `div` gc in
  ∃ mn mx,
    np_min m = Ok mn ∧ np_max m = Ok mx
    ∧ (∀ r c x, elem m r c = Some x → mn ≤ x ≤ mx)
    ∧ (∃ r c, elem m r c = Some mn)
    ∧ (∃ r c, elem m r c = Some mx)
    ∧ ∃ w', update_images h a m gr gc tr tc w = (w', Ok ())
        ∧ ∀ i j, 0 ≤ i < gr → 0 ≤ j < gc →
            cell_shows h w' i j
              (mkImage (NumData (tile_data m tr tc i j))
                       (NamedColormap (default "viridis" (cmap a)))
                       (default mn (vmin a), default mx (vmax a))).
Proof.
  intros Hmode Hwf Hr Hc Hgr Hgc Hok tr tc.
  destruct (np_min_max_spec m Hwf Hr Hc) as (mn & mx & Hmin & Hmax & Hbound & Hmn & Hmx).
  exists mn, mx. do 5 (split; [done|]).
  rewrite (update_images_color h a m gr gc tr tc mn mx w Hmode Hmin Hmax).
  destruct (render_loop_spec gr gc h
              (λ i j, NumData (tile_data m tr tc i j))
              (NamedColormap (default "viridis" (cmap a)))
              (default mn (vmin a)) (default mx (vmax a)) w)
    as (w' & Hrun & _ & Hshown & _); [lia | lia | done |].
  exists w'. by split.
Qed.

(** ** Instances *)

Lemma tiles_partition_matrix_witness :
  wf_ndarray mixed_2x2
  ∧ Z.of_nat (nrows mixed_2x2) `mod` 2 = 0
  ∧ Z.of_nat (arr_ncols mixed_2x2) `mod` 2 = 0
  ∧ reassemble (tiles mixed_2x2 2 2) = mixed_2x2.
Proof.
  assert (wf_ndarray mixed_2x2) as Hwf by (by repeat constructor).
  split; [exact Hwf|]. split; [reflexivity|]. split; [reflexivity|].
  apply (tiles_partition_matrix mixed_2x2 2 2 Hwf); [lia | lia | reflexivity | reflexivity].
Defined.

Lemma binary_mode_thresholds_each_element_witness :
  handle_ok 2 2 handle_2x2 world_2x2
  ∧ ∃ w', update_images handle_2x2 args_mixed_binary mixed_2x2 2 2 1 1 world_2x2
          = (w', Ok ())
      ∧ ∀ i j, 0 ≤ i < 2 → 0 ≤ j < 2 →
          ∃ img, cell_shows handle_2x2 w' i j img
                 ∧ im_cmap img = ListedColormap ["black"; "white"]
                 ∧ im_clim img = (0, 1).
Proof.
  split; [exact handle_2x2_ok|].
  destruct (binary_mode_thresholds_each_element
              args_mixed_binary handle_2x2 mixed_2x2 2 2 world_2x2)
    as (w' & Hrun & Hcells & _).
  - reflexivity.
  - by repeat constructor.
  - lia.
  - lia.
  - reflexivity.
  - reflexivity.
  - exact handle_2x2_ok.
  - exists w'. split; [exact Hrun|].
    intros i j Hi Hj. destruct (Hcells i j Hi Hj) as (img & H1 & H2 & H3 & _).
    exists img. auto.
Defined.

Lemma color_mode_uses_whole_matrix_range_witness :
  handle_ok 2 2 handle_2x2 world_2x2
  ∧ np_min mixed_2x2 = Ok (-2) ∧ np_max mixed_2x2 = Ok 4
  ∧ ∃ w', update_images handle_2x2 args_mixed_color mixed_2x2 2 2 1 1 world_2x2
          = (w', Ok ())
      ∧ ∀ i j, 0 ≤ i < 2 → 0 ≤ j < 2 →
          cell_shows handle_2x2 w' i j
            (mkImage (NumData (tile_data mixed_2x2 1 1 i j))
                     (NamedColormap "viridis") (-2, 4)).
Proof.
  split; [exact handle_2x2_ok|]. split; [reflexivity|]. split; [reflexivity|].
  destruct (color_mode_uses_whole_matrix_range
              args_mixed_color handle_2x2 mixed_2x2 2 2 world_2x2)
    as (mn & mx & Hmin & Hmax & _ & _ & _ & w' & Hrun & Hcells).
  - reflexivity.
  - by repeat constructor.
  - unfold nrows. simpl. lia.
  - simpl. lia.
  - lia.
  - lia.
  - exact handle_2x2_ok.
  - injection Hmin as <-. injection Hmax as <-.
    exists w'. split; [exact Hrun | exact Hcells].
Defined.

Lemma invalid_input_raises_without_effect_witness :
  invalid_input args_10x10_grid_rows_3
  ∧ ∃ e, draw_matrix args_10x10_grid_rows_3 world_2x2 = (world_2x2, Raise e).
Proof.
  assert (invalid_input args_10x10_grid_rows_3) as Hinv.
  { apply (invalid_not_dividing _ ones_10x10 3 1); try reflexivity.
    left. vm_compute. discriminate. }
  split; [exact Hinv|].
  apply (invalid_input_raises_without_effect args_10x10_grid_rows_3 world_2x2 Hinv).
Defined.

(** * Further properties *)

(** ** Every call raises *)

Lemma reachable_call_outcome (a : Args) (w : World) :
  reachable w →
  (∃ e, draw_matrix a w = (w, Raise e))
  ∨ (∃ m gr gc, valid_input a m gr gc
       ∧ draw_matrix a w
         = (world_after_creation gr gc (figsize a) w, Raise weakref_error)).
Proof.
  intros Hw.
  destruct (validation_outcome a) as [[[m gr] gc]|e] eqn:Hv.
  - right. exists m, gr, gc. apply validation_ok_inv in Hv. split; [done|].
    apply (draw_matrix_cache_miss a m gr gc w); [done|].
    by rewrite (reachable_cache_empty w Hw).
  - left. exists e. by rewrite draw_matrix_run, Hv.
Qed.

(** X1.  In every state the process can reach, no call of [draw_matrix]
    returns: an invalid input is rejected with the state untouched, and a
    valid input ends in the [TypeError] of line 103 with one more figure
    open. *)
Theorem draw_matrix_never_returns (a : Args) (w : World) :
  reachable w →
  (∃ e, draw_matrix a w = (w, Raise e))
  ∨ (∃ m gr gc, valid_input a m gr gc
       ∧ draw_matrix a w
         = (world_after_creation gr gc (figsize a) w,
            Raise (TypeError "cannot create weak reference to 'tuple' object"))).
Proof. apply reachable_call_outcome. Qed.

Lemma draw_matrix_never_returns_witness :
  reachable (draw_matrix args_mixed_color initial_world).1
  ∧ ∃ e, (draw_matrix args_mixed_binary
            (draw_matrix args_mixed_color initial_world).1).2 = Raise e.
Proof.
  assert (reachable (draw_matrix args_mixed_color initial_world).1) as Hw
    by apply reachable_call, reachable_initial.
  split; [exact Hw|].
  destruct (draw_matrix_never_returns args_mixed_binary _ Hw)
    as [[e He]|(m & gr & gc & _ & He)]; rewrite He; eauto.
Defined.

(** ** Nothing is ever drawn *)

Lemma lookup_foldr_insert {V} (l : list nat) (v x : V) (s : gmap nat V) (k : nat) :
  foldr (λ a s, <[a := v]> s) s l !! k = Some x → x = v ∨ s !! k = Some x.
Proof.
  induction l as [|a l IH]; simpl; [by right|].
  rewrite lookup_insert. case_decide; [|done]. intros [= <-]. by left.
Qed.

Lemma world_after_creation_nothing_drawn (gr gc : Z) sz (w : World) :
  nothing_drawn w → nothing_drawn (world_after_creation gr gc sz w).
Proof.
  intros (Hc & Hi & Hs & Hl & Hax & Harr).
  unfold nothing_drawn, world_after_creation. simpl.
  do 4 (split; [done|]). split.
  - intros ax x Hx. apply lookup_foldr_insert in Hx as [->|Hx]; eauto.
  - intros arr a. rewrite lookup_insert. case_decide; [|by eauto].
    intros [= <-]. apply Forall_replicate, Forall_replicate. done.
Qed.

Lemma reachable_nothing_drawn_aux (w : World) : reachable w → nothing_drawn w.
Proof.
  induction 1 as [|a w Hw IH|num w _ IH].
  - unfold nothing_drawn. simpl. do 4 (split; [done|]).
    split; intros ? ?; by rewrite lookup_empty.
  - destruct (reachable_call_outcome a w Hw) as [[e He]|(m & gr & gc & _ & He)];
      rewrite He; simpl; [done|].
    by apply world_after_creation_nothing_drawn.
  - exact IH.
Qed.

(** X2.  Whatever calls and window closures came before, nothing has been
    drawn: the cache is empty, there is no image object and no heading, no
    layout, draw, flush or pause call has been made, every [image_objects]
    array holds only [None] and every Axes still has the ticks and the
    (empty) image list [plt.subplots] gave it: lines 105 to 172 never
    run. *)
Theorem reachable_nothing_drawn (w : World) :
  reachable w → nothing_drawn w.
Proof. apply reachable_nothing_drawn_aux. Qed.

Lemma reachable_nothing_drawn_witness :
  reachable (draw_matrix args_mixed_binary (user_close 1
               (draw_matrix args_mixed_color initial_world).1)).1
  ∧ images (draw_matrix args_mixed_binary (user_close 1
               (draw_matrix args_mixed_color initial_world).1)).1 = ∅.
Proof.
  assert (reachable (draw_matrix args_mixed_binary (user_close 1
               (draw_matrix args_mixed_color initial_world).1)).1) as Hw
    by apply reachable_call, reachable_close, reachable_call, reachable_initial.
  split; [exact Hw|].
  exact (proj1 (proj2 (reachable_nothing_drawn _ Hw))).
Defined.

(** ** One window per accepted call *)

Lemma foldr_max_init (l : list Z) (b : Z) :
  0 ≤ b → foldr Z.max b l = Z.max b (foldr Z.max 0 l).
Proof. intros Hb. induction l as [|x l IH]; simpl; lia. Qed.

Lemma foldr_max_seqZ (n : nat) : foldr Z.max 0 (seqZ 1 (Z.of_nat n)) = Z.of_nat n.
Proof.
  induction n as [|n IH]; [done|].
  rewrite seqZ_S, foldr_app. simpl.
  rewrite foldr_max_init, IH by lia. lia.
Qed.

Lemma next_fignum_seqZ (n : nat) : next_fignum (seqZ 1 (Z.of_nat n)) = Z.of_nat n + 1.
Proof.
  unfold next_fignum. rewrite foldr_max_seqZ.
  destruct n; [done|]. by rewrite seqZ_cons by lia.
Qed.

Lemma run_calls_fignums (l : list Args) (w : World) (n : nat) :
  reachable w → fignums w = seqZ 1 (Z.of_nat n) →
  fignums (run_calls l w)
  = seqZ 1 (Z.of_nat (n + length (filter (λ a, passes_validation a = true) l))).
Proof.
  revert w n. induction l as [|a l IH]; intros w n Hw Hn; simpl.
  - by rewrite Nat.add_0_r.
  - assert (reachable (draw_matrix a w).1) as Hw' by by apply reachable_call.
    destruct (validation_outcome a) as [[[m gr] gc]|e] eqn:Hout.
    + assert (passes_validation a = true) as Hp
        by (unfold passes_validation; by rewrite Hout).
      apply validation_ok_inv in Hout.
      rewrite filter_cons_True by done. simpl.
      rewrite (IH _ (S n) Hw').
      * f_equal. lia.
      * rewrite (draw_matrix_cache_miss a m gr gc w Hout)
          by (by rewrite (reachable_cache_empty w Hw)).
        simpl. rewrite Hn, next_fignum_seqZ.
        rewrite (seqZ_S 1 n). f_equal. f_equal. lia.
    + assert (passes_validation a ≠ true) as Hp
        by (unfold passes_validation; by rewrite Hout).
      rewrite filter_cons_False by done.
      apply (IH _ n Hw'). rewrite draw_matrix_run, Hout. done.
Qed.

(** X3.  A caller that catches the exceptions and keeps calling, from a
    fresh process and with no window closed in between, ends with one open
    figure per call that passed validation, numbered 1, 2, 3, ...: no call
    ever reuses a figure. *)
Theorem one_new_figure_per_accepted_call (l : list Args) :
  fignums (run_calls l initial_world)
  = seqZ 1 (Z.of_nat (length (filter (λ a, passes_validation a = true) l))).
Proof. apply (run_calls_fignums l initial_world 0); [constructor | done]. Qed.

(** ** The order of the checks *)

Lemma validation_first_failure (a : Args) :
  (¬ (isinstance_ndarray (matrix a) = true ∧ ndim (matrix a) = 2) →
     validation_outcome a
     = Raise (TypeError "Input 'matrix' must be a 2D numpy array."))
  ∧ (∀ m, matrix a = Ndarray2 m → mode a ≠ "binary" → mode a ≠ "color" →
     validation_outcome a
     = Raise (ValueError "Parameter 'mode' must be 'binary' or 'color'."))
  ∧ (∀ m, matrix a = Ndarray2 m → mode a = "binary" ∨ mode a = "color" →
     rejected_grid (grid_rows a) →
     validation_outcome a
     = Raise (ValueError "'grid_rows' must be a positive integer."))
  ∧ (∀ m, matrix a = Ndarray2 m → mode a = "binary" ∨ mode a = "color" →
     ¬ rejected_grid (grid_rows a) → rejected_grid (grid_cols a) →
     validation_outcome a
     = Raise (ValueError "'grid_cols' must be a positive integer.")).
Proof.
  unfold validation_outcome, rejected_grid. split; [|split; [|split]].
  - intros Hnot. destruct (matrix a) as [| |len|m|k]; try done.
    exfalso. by apply Hnot.
  - intros m -> Hb Hc. rewrite bool_decide_eq_false_2; [done|].
    intros H. apply elem_of_cons in H as [H|H]; [done|].
    by apply list_elem_of_singleton in H.
  - intros m -> Hmode Hrows.
    rewrite bool_decide_eq_true_2 by (destruct Hmode as [-> | ->]; [left | right; left]).
    destruct (default (GridInt 1) (grid_rows a)) as [z|]; [|done].
    by rewrite (proj2 (Z.leb_le z 0)).
  - intros m -> Hmode Hrows Hcols.
    rewrite bool_decide_eq_true_2 by (destruct Hmode as [-> | ->]; [left | right; left]).
    destruct (default (GridInt 1) (grid_rows a)) as [z|]; [|done].
    rewrite (proj2 (Z.leb_gt z 0)) by lia.
    destruct (default (GridInt 1) (grid_cols a)) as [z'|]; [|done].
    by rewrite (proj2 (Z.leb_le z' 0)).
Qed.

(** X4.  The checks run in a fixed order and the first that fails decides
    the exception, whatever else is wrong: a matrix that is no 2-D array
    gives the [TypeError]; otherwise an unknown mode gives the mode error;
    otherwise a rejected [grid_rows] gives the 'grid_rows' error, even when
    [grid_cols] is wrong too; otherwise a rejected [grid_cols] gives the
    'grid_cols' error, even when the rows do not divide.  The state is
    untouched in each case. *)
Theorem first_failing_check_decides (a : Args) (w : World) :
  (¬ (isinstance_ndarray (matrix a) = true ∧ ndim (matrix a) = 2) →
     draw_matrix a w
     = (w, Raise (TypeError "Input 'matrix' must be a 2D numpy array.")))
  ∧ (∀ m, matrix a = Ndarray2 m → mode a ≠ "binary" → mode a ≠ "color" →
     draw_matrix a w
     = (w, Raise (ValueError "Parameter 'mode' must be 'binary' or 'color'.")))
  ∧ (∀ m, matrix a = Ndarray2 m → mode a = "binary" ∨ mode a = "color" →
     rejected_grid (grid_rows a) →
     draw_matrix a w
     = (w, Raise (ValueError "'grid_rows' must be a positive integer.")))
  ∧ (∀ m, matrix a = Ndarray2 m → mode a = "binary" ∨ mode a = "color" →
     ¬ rejected_grid (grid_rows a) → rejected_grid (grid_cols a) →
     draw_matrix a w
     = (w, Raise (ValueError "'grid_cols' must be a positive integer."))).
Proof.
  destruct (validation_first_failure a) as (H1 & H2 & H3 & H4).
  rewrite draw_matrix_run.
  split; [|split; [|split]].
  - intros H. by rewrite H1.
  - intros m Hm Hb Hc. by rewrite (H2 m).
  - intros m Hm Hmode Hr. by rewrite (H3 m).
  - intros m Hm Hmode Hr Hc. by rewrite (H4 m).
Qed.

Lemma first_failing_check_decides_witness :
  draw_matrix args_wrong_everywhere world_2x2
  = (world_2x2, Raise (TypeError "Input 'matrix' must be a 2D numpy array."))
  ∧ draw_matrix (mkArgs (Ndarray2 ones_10x10) "binary" (Some (GridInt 3))
                   (Some GridNotInt) (6%positive, 6%positive) None None None None)
      world_2x2
    = (world_2x2, Raise (ValueError "'grid_cols' must be a positive integer.")).
Proof.
  split.
  - apply (first_failing_check_decides args_wrong_everywhere world_2x2).
    simpl. intros [H _]. discriminate.
  - apply (proj2 (proj2 (proj2 (first_failing_check_decides _ world_2x2)))
             ones_10x10); simpl; auto.
    unfold rejected_grid. simpl. lia.
Defined.

(** ** Without a grid *)

(** X5.  With [grid_rows] and [grid_cols] left out, every 2-D array passes
    the checks under either mode, whatever its shape, as a 1x1 grid, and
    the one tile the loops cut is the whole array. *)
Theorem default_grid_is_one_whole_tile (a : Args) (m : ndarray Z) :
  wf_ndarray m →
  matrix a = Ndarray2 m → mode a = "binary" ∨ mode a = "color" →
  grid_rows a = None → grid_cols a = None →
  valid_input a m 1 1
  ∧ tile_data m (Z.of_nat (nrows m) `div` 1) (Z.of_nat (arr_ncols m) `div` 1) 0 0 = m
  ∧ tiles m 1 1 = [[m]].
Proof.
  intros Hwf Hm Hmode Hr Hc.
  assert (tile_data m (Z.of_nat (nrows m) `div` 1) (Z.of_nat (arr_ncols m) `div` 1) 0 0 = m)
    as Htile.
  { rewrite !Z.div_1_r. unfold tile_data, slice2.
    rewrite !Z.mul_0_l, !Z.add_0_l, !Z.mul_1_l. destruct m as [rows cols]. simpl in *. unfold nrows. simpl.
    f_equal.
    - rewrite py_slice_all by done.
      etrans; [|apply list_fmap_id]. apply list_fmap_ext. intros k row Hrow. simpl.
      apply py_slice_all. by rewrite (Forall_lookup_1 _ _ _ _ Hwf Hrow).
    - rewrite slice_len_in_range by lia. lia. }
  split; [|split].
  - split; rewrite ?Hr, ?Hc, ?Z.mod_1_r; done || lia.
  - exact Htile.
  - unfold tiles. change (seqZ 0 1) with [0].
    rewrite !list_fmap_singleton. by rewrite Htile.
Qed.

Lemma default_grid_is_one_whole_tile_witness :
  wf_ndarray empty_0x3
  ∧ valid_input (default_args (Ndarray2 empty_0x3)) empty_0x3 1 1
  ∧ tiles empty_0x3 1 1 = [[empty_0x3]].
Proof.
  assert (wf_ndarray empty_0x3) as Hwf by constructor.
  split; [exact Hwf|].
  destruct (default_grid_is_one_whole_tile (default_args (Ndarray2 empty_0x3))
              empty_0x3 Hwf) as (H1 & _ & H3); auto.
Defined.

(** ** Arguments that mode 'binary' ignores *)

(** X6.  In mode 'binary' the arguments [cmap], [vmin] and [vmax] change
    nothing: in every state, the call with any values for them does what
    the call without them does. *)
Theorem binary_mode_ignores_palette_arguments
    (a : Args) (cm : option string) (lo hi : option Z) (w : World) :
  mode a = "binary" →
  draw_matrix (with_palette cm lo hi a) w = draw_matrix a w.
Proof.
  intros Hmode. rewrite !draw_matrix_run.
  change (validation_outcome (with_palette cm lo hi a)) with (validation_outcome a).
  destruct (validation_outcome a) as [[[m gr] gc]|e]; [|done].
  unfold after_validation.
  change (figure_key (with_palette cm lo hi a) gr gc) with (figure_key a gr gc).
  change (figsize (with_palette cm lo hi a)) with (figsize a).
  change (title (with_palette cm lo hi a)) with (title a).
  rewrite !bind_run.
  destruct (acquire_handle (figure_key a gr gc) gr gc (figsize a) w) as [w1 [h|e]];
    [|done].
  rewrite !bind_run.
  by rewrite (update_images_binary h (with_palette cm lo hi a)),
             (update_images_binary h a).
Qed.

Lemma binary_mode_ignores_palette_arguments_witness :
  draw_matrix (with_palette (Some "plasma") (Some 3) (Some 7) args_mixed_binary)
    world_2x2
  = draw_matrix args_mixed_binary world_2x2.
Proof.
  apply (binary_mode_ignores_palette_arguments args_mixed_binary). reflexivity.
Defined.

(** ** The axes of a new figure, lines 91 to 98 *)

Lemma foldr_max_upper (l : list Z) (x : Z) : x ∈ l → x ≤ foldr Z.max 0 l.
Proof.
  induction l as [|y l IH]; intros Hx; [by apply not_elem_of_nil in Hx|].
  simpl. apply elem_of_cons in Hx as [->|Hx]; [lia|].
  specialize (IH Hx). lia.
Qed.

Lemma next_fignum_fresh (nums : list Z) : next_fignum nums ∉ nums.
Proof.
  intros Hin. unfold next_fignum in Hin.
  destruct nums as [|y l]; [by apply not_elem_of_nil in Hin|].
  apply foldr_max_upper in Hin. lia.
Qed.

Lemma lookup_foldr_insert_elem {V} (l : list nat) (v : V) (s : gmap nat V) (k : nat) :
  k ∈ l → foldr (λ a s, <[a := v]> s) s l !! k = Some v.
Proof.
  induction l as [|a l IH]; intros Hk; [by apply not_elem_of_nil in Hk|].
  simpl. rewrite lookup_insert. case_decide; [done|].
  apply elem_of_cons in Hk as [->|Hk]; [done|]. by apply IH.
Qed.

Lemma getitem2_elem_of_concat {X} (a : list (list X)) (i j : Z) (x : X) :
  0 ≤ i → 0 ≤ j → getitem2 a i j = Ok x → x ∈ concat a.
Proof.
  intros Hi Hj. rewrite getitem2_nonneg by done.
  destruct (a !! Z.to_nat i) as [row|] eqn:Hrow; [|done].
  destruct (row !! Z.to_nat j) as [y|] eqn:Hy; [|done]. intros [= <-].
  apply list_elem_of_In, in_concat. exists row.
  split; apply list_elem_of_In, list_elem_of_lookup; eauto.
Qed.

(** X7.  For every positive grid, whether 1x1, one row, one column or
    larger, [plt.subplots] followed by lines 93 to 98 gives a figure whose
    number was not in use and a two-dimensional array of axes that covers
    the grid: cell [(i, j)] holds the Axes created in position
    [i * grid_cols + j], which exists with automatic ticks and no image. *)
Theorem new_figure_axes_cover_grid (gr gc : Z) (sz : positive * positive) (w : World) :
  0 < gr → 0 < gc →
  ∃ ax axes2d,
    plt_subplots gr gc sz w
    = ((plt_subplots gr gc sz w).1,
       Ok (FigRef (next_id w) (next_fignum (fignums w)) sz, ax))
    ∧ (next_fignum (fignums w) ∉ fignums w)
    ∧ fignums (plt_subplots gr gc sz w).1 = fignums w ++ [next_fignum (fignums w)]
    ∧ axes_as_2d gr gc ax = Ok axes2d
    ∧ ∀ i j, 0 ≤ i < gr → 0 ≤ j < gc →
        getitem2 axes2d i j
        = Ok (next_id w + 1 + Z.to_nat i * Z.to_nat gc + Z.to_nat j)%nat
        ∧ axes_store (plt_subplots gr gc sz w).1
            !! (next_id w + 1 + Z.to_nat i * Z.to_nat gc + Z.to_nat j)%nat
          = Some new_axes.
Proof.
  intros Hgr Hgc.
  exists (squeeze gr gc (fresh_axes (next_id w + 1) (Z.to_nat gr) (Z.to_nat gc))),
         (fresh_axes (next_id w + 1) (Z.to_nat gr) (Z.to_nat gc)).
  split; [done|]. split; [apply next_fignum_fresh|]. split; [done|]. split.
  - apply axes_as_2d_squeeze; auto using fresh_axes_length, fresh_axes_row_length.
  - intros i j Hi Hj.
    assert (getitem2 (fresh_axes (next_id w + 1) (Z.to_nat gr) (Z.to_nat gc)) i j
            = Ok (next_id w + 1 + Z.to_nat i * Z.to_nat gc + Z.to_nat j)%nat) as Hget
      by (apply fresh_axes_getitem; lia).
    split; [done|].
    unfold plt_subplots. simpl.
    apply lookup_foldr_insert_elem.
    apply (getitem2_elem_of_concat _ i j); [lia | lia | done].
Qed.

Lemma new_figure_axes_cover_grid_witness :
  ∃ ax axes2d,
    (plt_subplots 1 3 (6%positive, 6%positive) world_2x2).2
    = Ok (FigRef 6 2 (6%positive, 6%positive), ax)
    ∧ axes_as_2d 1 3 ax = Ok axes2d
    ∧ getitem2 axes2d 0 2 = Ok 9%nat.
Proof.
  destruct (new_figure_axes_cover_grid 1 3 (6%positive, 6%positive) world_2x2)
    as (ax & axes2d & Hrun & _ & _ & Hax & Hcells); [lia | lia |].
  exists ax, axes2d. split; [by rewrite Hrun|]. split; [done|].
  apply (Hcells 0 2); lia.
Defined.

(** ** The cache lookup, lines 87 to 103 *)

Lemma acquire_handle_closed key (gr gc : Z) sz (h : Handle) (w : World) :
  0 < gr → 0 < gc →
  _figure_cache w !! key = Some h → fig_number (fig h) ∉ fignums w →
  acquire_handle key gr gc sz w = (world_after_creation gr gc sz w, Raise weakref_error).
Proof.
  intros Hgr Hgc Hhit Hclosed. unfold acquire_handle.
  rewrite bind_run. unfold cache_get, gets. rewrite Hhit.
  rewrite bind_run. unfold fignum_exists, gets.
  rewrite bool_decide_eq_false_2 by done. simpl.
  by apply create_handle_run.
Qed.

Lemma acquire_handle_open key (gr gc : Z) sz (h : Handle) (w : World) :
  _figure_cache w !! key = Some h → fig_number (fig h) ∈ fignums w →
  acquire_handle key gr gc sz w = (w, Ok h).
Proof.
  intros Hhit Hopen. unfold acquire_handle.
  rewrite bind_run. unfold cache_get, gets. rewrite Hhit.
  rewrite bind_run. unfold fignum_exists, gets.
  by rewrite bool_decide_eq_true_2 by done.
Qed.

(** X8.  A handle in the cache whose figure has been closed is handled as
    if the key were absent: for a valid input the call opens a new figure
    and raises the [TypeError] of line 103, exactly as on a miss, and the
    stale handle stays in the cache. *)
Theorem closed_figure_is_handled_as_a_miss
    (a : Args) m gr gc (h : Handle) (w : World) :
  valid_input a m gr gc →
  _figure_cache w !! figure_key a gr gc = Some h →
  fig_number (fig h) ∉ fignums w →
  draw_matrix a w
  = (world_after_creation gr gc (figsize a) w,
     Raise (TypeError "cannot create weak reference to 'tuple' object"))
  ∧ _figure_cache (world_after_creation gr gc (figsize a) w) !! figure_key a gr gc
    = Some h.
Proof.
  intros Hvalid Hhit Hclosed. split; [|done].
  rewrite draw_matrix_run, (validation_ok_intro _ _ _ _ Hvalid).
  unfold after_validation. rewrite bind_run.
  rewrite (acquire_handle_closed _ gr gc _ h) by (done || apply Hvalid).
  reflexivity.
Qed.

Lemma closed_figure_is_handled_as_a_miss_witness :
  _figure_cache world_cached_closed !! figure_key args_mixed_binary 2 2
  = Some handle_2x2
  ∧ (fig_number (fig handle_2x2) ∉ fignums world_cached_closed)
  ∧ (draw_matrix args_mixed_binary world_cached_closed).2 = Raise weakref_error.
Proof.
  assert (_figure_cache world_cached_closed !! figure_key args_mixed_binary 2 2
          = Some handle_2x2) as Hhit by reflexivity.
  assert (fig_number (fig handle_2x2) ∉ fignums world_cached_closed) as Hclosed.
  { vm_compute. intros H. by apply not_elem_of_nil in H. }
  split; [exact Hhit|]. split; [exact Hclosed|].
  rewrite (proj1 (closed_figure_is_handled_as_a_miss
                    args_mixed_binary mixed_2x2 2 2 handle_2x2 world_cached_closed
                    ltac:(by split; try reflexivity; auto; lia) Hhit Hclosed)).
  reflexivity.
Defined.

Lemma returns_only_on_hit (a : Args) (w : World) :
  (draw_matrix a w).2 = Ok () →
  ∃ m gr gc h,
    valid_input a m gr gc
    ∧ _figure_cache w !! figure_key a gr gc = Some h
    ∧ fig_number (fig h) ∈ fignums w.
Proof.
  rewrite draw_matrix_run.
  destruct (validation_outcome a) as [[[m gr] gc]|e] eqn:Hv; [|done].
  apply validation_ok_inv in Hv. intros Hok.
  exists m, gr, gc.
  destruct (_figure_cache w !! figure_key a gr gc) as [h|] eqn:Hhit.
  - exists h. split; [done|]. split; [done|].
    destruct (decide (fig_number (fig h) ∈ fignums w)) as [|Hclosed]; [done|].
    exfalso. unfold after_validation in Hok. rewrite bind_run in Hok.
    rewrite (acquire_handle_closed _ gr gc _ h) in Hok by (done || apply Hv).
    done.
  - exfalso. unfold after_validation in Hok. rewrite bind_run in Hok.
    rewrite acquire_handle_miss in Hok by (done || apply Hv). done.
Qed.

(** X9.  A call of [draw_matrix] that returns found, for its valid input,
    a handle in the cache under its key whose figure was still open: on
    every other path the call raises. *)
Theorem draw_matrix_returns_only_on_live_cached_handle (a : Args) (w : World) :
  (draw_matrix a w).2 = Ok () →
  ∃ m gr gc h,
    valid_input a m gr gc
    ∧ _figure_cache w !! figure_key a gr gc = Some h
    ∧ fig_number (fig h) ∈ fignums w.
Proof. apply returns_only_on_hit. Qed.

Lemma draw_matrix_returns_only_on_live_cached_handle_witness :
  (draw_matrix args_mixed_binary world_cached).2 = Ok ()
  ∧ ∃ h, _figure_cache world_cached !! figure_key args_mixed_binary 2 2 = Some h.
Proof.
  assert ((draw_matrix args_mixed_binary world_cached).2 = Ok ()) as Hok
    by (vm_compute; reflexivity).
  split; [exact Hok|].
  destruct (draw_matrix_returns_only_on_live_cached_handle _ _ Hok)
    as (m & gr & gc & h & Hv & Hhit & _).
  destruct Hv as [_ _ Hgr Hgc _ _ _ _].
  simpl in Hgr, Hgc. injection Hgr as <-. injection Hgc as <-. eauto.
Defined.

(** ** What the rendering loops leave alone *)

Lemma keeps_display_ret {A} (a : A) : keeps_display (mret a : M A).
Proof. by intros w. Qed.

Lemma keeps_display_lift {A} (r : result A) : keeps_display (lift r).
Proof. by intros w. Qed.

Lemma keeps_display_bind {A B} (m : M A) (f : A → M B) :
  keeps_display m → (∀ a, keeps_display (f a)) → keeps_display (m ≫= f).
Proof.
  intros Hm Hf w. rewrite bind_run. specialize (Hm w).
  destruct (m w) as [w' [a|e]]; simpl in *; [|done].
  destruct Hm as (H1 & H2 & H3 & H4). rewrite <- H1, <- H2, <- H3, <- H4. apply Hf.
Qed.

Lemma keeps_display_for {A} (l : list A) (body : A → M unit) :
  (∀ x, keeps_display (body x)) → keeps_display (for_ l body).
Proof.
  intros Hb. induction l as [|x l IH]; simpl.
  - apply keeps_display_ret.
  - apply keeps_display_bind; [apply Hb | by intros _].
Qed.

Lemma keeps_display_show_tile h i j ax tile cm lo hi :
  keeps_display (show_tile h i j ax tile cm lo hi).
Proof.
  unfold show_tile. apply keeps_display_bind; [by intros w|].
  intros [im|].
  - repeat (apply keeps_display_bind; [by intros w | intros _]). by intros w.
  - apply keeps_display_bind; [by intros w|]. intros im w.
    unfold image_objects_set. by destruct (setitem2 _ i j (Some im)).
Qed.

Lemma keeps_display_render_loop h gr gc tile cm lo hi :
  keeps_display (render_loop h gr gc tile cm lo hi).
Proof.
  unfold render_loop. apply keeps_display_for. intros i.
  apply keeps_display_for. intros j.
  apply keeps_display_bind; [apply keeps_display_lift|]. intros ax.
  apply keeps_display_show_tile.
Qed.

Lemma keeps_display_update_images h a m gr gc tr tc :
  keeps_display (update_images h a m gr gc tr tc).
Proof.
  unfold update_images.
  case_bool_decide; [apply keeps_display_render_loop|].
  case_bool_decide; [|apply keeps_display_ret].
  unfold update_color.
  apply keeps_display_bind; [destruct (vmin a); by intros w|]. intros lo.
  apply keeps_display_bind; [destruct (vmax a); by intros w|]. intros hi.
  apply keeps_display_render_loop.
Qed.

(** X10.  The rendering loops of lines 115 to 154 never open or close a
    figure, never touch a heading or the cache and make no layout, draw,
    flush or pause call: this holds for every handle and every state, also
    when the loops stop with an exception part of the way. *)
Theorem rendering_leaves_figures_headings_cache_and_log
    (h : Handle) (a : Args) (m : ndarray Z) (gr gc tr tc : Z) (w : World) :
  fignums (update_images h a m gr gc tr tc w).1 = fignums w
  ∧ suptitles (update_images h a m gr gc tr tc w).1 = suptitles w
  ∧ _figure_cache (update_images h a m gr gc tr tc w).1 = _figure_cache w
  ∧ toolkit_log (update_images h a m gr gc tr tc w).1 = toolkit_log w.
Proof. apply keeps_display_update_images. Qed.

(** ** The loops as one loop *)

Lemma update_images_as_render_loop (h : Handle) (a : Args) (m : ndarray Z)
    (gr gc tr tc : Z) :
  renderable a m →
  ∃ cm lo hi, ∀ w,
    update_images h a m gr gc tr tc w
    = render_loop h gr gc (tile_image a m tr tc) cm lo hi w.
Proof.
  intros [Hb|[Hc Hflat]].
  - exists binary_cmap, 0, 1. intros w.
    rewrite (update_images_binary h a m gr gc tr tc Hb).
    unfold tile_image. by rewrite bool_decide_eq_true_2.
  - assert (∃ mn mx, np_min m = Ok mn ∧ np_max m = Ok mx) as (mn & mx & Hmn & Hmx).
    { unfold np_min, np_max. destruct (flat m); [done|]. eauto. }
    exists (NamedColormap (default "viridis" (cmap a))),
           (default mn (vmin a)), (default mx (vmax a)).
    intros w. rewrite (update_images_color h a m gr gc tr tc mn mx w Hc Hmn Hmx).
    unfold tile_image. rewrite bool_decide_eq_false_2; [done|].
    rewrite Hc. discriminate.
Qed.

(** ** One cell, exactly *)


(** ** First rendering and rendering again *)


Section Rerender.
Variables (gr gc : Z) (h : Handle).
Variable tile : Z → Z → imdata.
Variables (cm : colormap) (lo hi : Z).
Variable w0 : World.
Hypothesis all_present :
  ∀ i j, 0 ≤ i < gr → 0 ≤ j < gc → is_Some (image_at h w0 i j).

Local Abbreviation in_place w :=
  (handle_ok gr gc h w
   ∧ next_id w = next_id w0
   ∧ object_arrays w = object_arrays w0
   ∧ axes_store w = axes_store w0
   ∧ dom (images w) = dom (images w0)
   ∧ ∀ i j, 0 ≤ i < gr → 0 ≤ j < gc → image_at h w i j = image_at h w0 i j).


End Rerender.

Section FirstRender.
Variables (gr gc : Z) (h : Handle).
Variable tile : Z → Z → imdata.
Variables (cm : colormap) (lo hi : Z).
Variable w0 : World.
Hypothesis gr_nonneg : 0 ≤ gr.
Hypothesis gc_nonneg : 0 ≤ gc.
Hypothesis all_empty :
  ∀ i j, 0 ≤ i < gr → 0 ≤ j < gc → image_at h w0 i j = None.

(** [k] full rows and [l] cells of the next row have been drawn. *)
Local Abbreviation drawn_up_to k l w :=
  (handle_ok gr gc h w
   ∧ Z.of_nat (next_id w) = Z.of_nat (next_id w0) + k * gc + l
   ∧ ∀ i j, 0 ≤ i < gr → 0 ≤ j < gc →
       image_at h w i j
       = if decide ((i < k)%Z ∨ ((i = k)%Z ∧ (j < l)%Z))
         then Some (Z.to_nat (Z.of_nat (next_id w0) + i * gc + j))
         else None).


End FirstRender.








(** ** The path on which the call returns *)

Lemma flush_run (f : fig_ref) (w : World) :
  flush f w
  = (log_call Pause (log_call (FlushEvents (fig_id f))
       (log_call (CanvasDraw (fig_id f)) (log_call TightLayout w))), Ok ()).
Proof. reflexivity. Qed.

(** X13.  When the cache holds, under the key of a valid and drawable
    input, a well-formed handle whose figure is open, [draw_matrix]
    returns; it opens no figure and leaves the cache alone, every grid
    cell then shows the tile of the new matrix, a cell that had an image
    keeps that image object, the heading of the handle's figure is the
    title, or an existing heading emptied when the title is absent or
    empty, and the four calls of lines 165 to 172 are made in order on
    that figure. *)
Theorem cached_live_handle_is_redrawn
    (a : Args) (m : ndarray Z) (gr gc : Z) (h : Handle) (w : World) :
  valid_input a m gr gc → renderable a m →
  _figure_cache w !! figure_key a gr gc = Some h →
  fig_number (fig h) ∈ fignums w →
  handle_ok gr gc h w →
  ∃ w', draw_matrix a w = (w', Ok ())
    ∧ fignums w' = fignums w
    ∧ _figure_cache w' = _figure_cache w
    ∧ toolkit_log w'
      = toolkit_log w ++ [TightLayout; CanvasDraw (fig_id (fig h));
                          FlushEvents (fig_id (fig h)); Pause]
    ∧ suptitles w' !! fig_id (fig h)
      = (if truthy (title a) then title a
         else (λ _, EmptyString) <$> suptitles w !! fig_id (fig h))
    ∧ ∀ i j, 0 ≤ i < gr → 0 ≤ j < gc →
        (∃ img, cell_shows h w' i j img
                ∧ im_data img
                  = tile_image a m (Z.of_nat (nrows m) `div` gr)
                      (Z.of_nat (arr_ncols m) `div` gc) i j)
        ∧ ∀ im, image_at h w i j = Some im → image_at h w' i j = Some im.
Proof.
  intros Hvalid Hrender Hhit Hopen Hok.
  rewrite draw_matrix_run, (validation_ok_intro _ _ _ _ Hvalid).
  unfold after_validation. rewrite bind_run, (acquire_handle_open _ _ _ _ h) by done.
  set (tr := Z.of_nat (nrows m) `div` gr). set (tc := Z.of_nat (arr_ncols m) `div` gc).
  destruct (update_images_as_render_loop h a m gr gc tr tc Hrender)
    as (cm & lo & hi & Hloop).
  destruct (render_loop_spec gr gc h (tile_image a m tr tc) cm lo hi w)
    as (w1 & Hrun & _ & Hshown & Hkept);
    [pose proof (valid_grid_rows_pos _ _ _ _ Hvalid); lia
    |pose proof (valid_grid_cols_pos _ _ _ _ Hvalid); lia | done |].
  pose proof (keeps_display_render_loop h gr gc (tile_image a m tr tc) cm lo hi w)
    as (Hfig & Hsup & Hcache & Hlog).
  rewrite Hrun in Hfig, Hsup, Hcache, Hlog. simpl in Hfig, Hsup, Hcache, Hlog.
  rewrite bind_run, Hloop, Hrun.
  rewrite bind_run, final_title_run, flush_run.
  eexists. split; [done|]. simpl.
  split; [done|]. split; [done|]. split.
  { rewrite Hlog, <- !app_assoc. done. }
  split.
  { rewrite Hsup. destruct (truthy (title a)) eqn:Et.
    - destruct (title a) as [t|]; [|done]. simpl. by rewrite lookup_insert_eq.
    - rewrite lookup_alter. by case_decide. }
  intros i j Hi Hj. split.
  - destruct (Hshown i j Hi Hj) as (im & Him & Himg).
    eexists. split; [exists im; split; [exact Him | exact Himg] | done].
  - intros im Him. exact (Hkept i j im Hi Hj Him).
Qed.

Lemma world_cached_ok : handle_ok 2 2 handle_2x2 world_cached.
Proof. destruct handle_2x2_ok as [H1 H2 H3 H4 H5]. by split. Qed.

Lemma cached_live_handle_is_redrawn_witness :
  _figure_cache world_cached !! figure_key args_mixed_binary 2 2 = Some handle_2x2
  ∧ fig_number (fig handle_2x2) ∈ fignums world_cached
  ∧ ∃ w', draw_matrix args_mixed_binary world_cached = (w', Ok ())
      ∧ fignums w' = [1]
      ∧ toolkit_log w' = [TightLayout; CanvasDraw 0; FlushEvents 0; Pause].
Proof.
  assert (_figure_cache world_cached !! figure_key args_mixed_binary 2 2
          = Some handle_2x2) as Hhit by reflexivity.
  assert (fig_number (fig handle_2x2) ∈ fignums world_cached) as Hopen
    by (vm_compute; left).
  split; [exact Hhit|]. split; [exact Hopen|].
  destruct (cached_live_handle_is_redrawn args_mixed_binary mixed_2x2 2 2
              handle_2x2 world_cached)
    as (w' & Hrun & Hfig & _ & Hlog & _).
  - by split; try reflexivity; auto; lia.
  - by left.
  - exact Hhit.
  - exact Hopen.
  - exact world_cached_ok.
  - exists w'. split; [exact Hrun|]. split; [exact Hfig | exact Hlog].
Defined.

(** ** Mode 'color' on a matrix without elements *)

(** X14.  In mode 'color' a matrix without elements (no rows, or no
    columns) stops the rendering before any tile, with the state
    untouched: at [np.min] when [vmin] is absent, at [np.max] when only
    [vmax] is absent.  When both are supplied neither is evaluated and the
    rendering succeeds with that range. *)
Theorem color_mode_on_empty_matrix
    (h : Handle) (a : Args) (m : ndarray Z) (gr gc tr tc : Z) (w : World) :
  mode a = "color" → flat m = [] →
  (vmin a = None →
     update_images h a m gr gc tr tc w
     = (w, Raise (ValueError
          "zero-size array to reduction operation minimum which has no identity")))
  ∧ (∀ lo, vmin a = Some lo → vmax a = None →
     update_images h a m gr gc tr tc w
     = (w, Raise (ValueError
          "zero-size array to reduction operation maximum which has no identity")))
  ∧ (∀ lo hi, vmin a = Some lo → vmax a = Some hi →
     0 ≤ gr → 0 ≤ gc → handle_ok gr gc h w →
     ∃ w', update_images h a m gr gc tr tc w = (w', Ok ())
       ∧ ∀ i j, 0 ≤ i < gr → 0 ≤ j < gc →
           cell_shows h w' i j
             (mkImage (NumData (tile_data m tr tc i j))
                      (NamedColormap (default "viridis" (cmap a))) (lo, hi))).
Proof.
  intros Hmode Hflat. split; [|split].
  - intros Hvmin. by apply update_images_color_empty.
  - intros lo Hvmin Hvmax. unfold update_images, update_color.
    rewrite Hmode, Hvmin, Hvmax. simpl. rewrite !bind_run.
    unfold lift, np_max. by rewrite Hflat.
  - intros lo hi Hvmin Hvmax Hgr Hgc Hok.
    destruct (render_loop_spec gr gc h (λ i j, NumData (tile_data m tr tc i j))
                (NamedColormap (default "viridis" (cmap a))) lo hi w Hgr Hgc Hok)
      as (w' & Hrun & _ & Hshown & _).
    exists w'. split; [|done].
    unfold update_images, update_color. rewrite Hmode, Hvmin, Hvmax. simpl.
    exact Hrun.
Qed.

Lemma color_mode_on_empty_matrix_witness :
  flat empty_0x3 = []
  ∧ (update_images handle_2x2
       (mkArgs (Ndarray2 empty_0x3) "color" (Some (GridInt 2)) (Some (GridInt 2))
               (6%positive, 6%positive) None (Some 0) None None)
       empty_0x3 2 2 0 1 world_2x2).2
    = Raise (ValueError
        "zero-size array to reduction operation maximum which has no identity").
Proof.
  split; [reflexivity|].
  rewrite (proj1 (proj2 (color_mode_on_empty_matrix handle_2x2
             (mkArgs (Ndarray2 empty_0x3) "color" (Some (GridInt 2)) (Some (GridInt 2))
                     (6%positive, 6%positive) None (Some 0) None None)
             empty_0x3 2 2 0 1 world_2x2 eq_refl eq_refl)) 0 eq_refl eq_refl).
  reflexivity.
Defined.

(** ** Title steps one after the other *)

(** X15.  Two title steps on the same figure: the heading is the second
    title when that is non-empty; otherwise it is the empty text if the
    first title was non-empty or a heading existed before, and there is
    still no heading if there was none.  So a heading, once set, never
    disappears, and repeating a title step changes nothing. *)
Theorem title_steps_compose (t1 t2 : option string) (f : fig_ref) (w : World) :
  suptitles (final_title t2 f (final_title t1 f w).1).1 !! fig_id f
  = (if truthy t2 then t2
     else if truthy t1 then Some EmptyString
     else (λ _, EmptyString) <$> suptitles w !! fig_id f)
  ∧ (final_title t1 f (final_title t1 f w).1).1 = (final_title t1 f w).1.
Proof.
  rewrite !final_title_run. simpl. split.
  - destruct (truthy t2) eqn:E2.
    + destruct t2 as [s|]; [|done]. simpl. by rewrite lookup_insert_eq.
    + rewrite lookup_alter. case_decide; [|done].
      destruct (truthy t1).
      * by rewrite lookup_insert_eq.
      * rewrite lookup_alter. case_decide; [|done].
        by destruct (suptitles w !! fig_id f).
  - destruct w. unfold set_suptitles. simpl. f_equal.
    destruct (truthy t1).
    + by rewrite insert_insert_eq.
    + apply map_eq. intros k. rewrite !lookup_alter.
      repeat case_decide; try done. by destruct (suptitles0 !! _).
Qed.

(** ** Thresholding and slicing *)

Lemma py_slice_fmap {X Y} (f : X → Y) (l : list X) (s e : Z) :
  py_slice (f <$> l) s e = f <$> py_slice l s e.
Proof. unfold py_slice. by rewrite length_fmap, fmap_take, fmap_drop. Qed.

Lemma slice2_ndarray_map {X Y} (f : X → Y) (a : ndarray X) (r0 r1 c0 c1 : Z) :
  slice2 (ndarray_map f a) r0 r1 c0 c1 = ndarray_map f (slice2 a r0 r1 c0 c1).
Proof.
  unfold slice2, ndarray_map. simpl. f_equal.
  change (map (map f)) with (fmap (M:=list) (fmap (M:=list) f)).
  rewrite py_slice_fmap, <- !list_fmap_compose.
  apply list_fmap_ext. intros k row _. simpl. apply py_slice_fmap.
Qed.

(** X16.  Mode 'binary' thresholds the whole matrix once and then slices
    it (lines 117 and 125); the tile it shows for a cell is the threshold
    of that cell's tile of the raw matrix, for every tile size and every
    cell, so a tile's picture depends on the elements of that tile only. *)
Theorem threshold_commutes_with_tiling (m : ndarray Z) (tr tc i j : Z) :
  tile_data (gt0 m) tr tc i j = gt0 (tile_data m tr tc i j).
Proof. unfold tile_data, gt0. apply slice2_ndarray_map. Qed.

(** ** Grids at the bounds *)

(** X17.  A grid with more rows than a non-empty matrix has, or more
    columns, never divides it: the call is rejected with the state
    untouched (by the [NameError] of line 75).  An array without rows and
    without columns, on the other hand, passes the checks for every
    positive grid. *)
Theorem grid_finer_than_matrix_is_rejected (a : Args) (m : ndarray Z) (gr gc : Z)
    (w : World) :
  matrix a = Ndarray2 m → mode a = "binary" ∨ mode a = "color" →
  default (GridInt 1) (grid_rows a) = GridInt gr →
  default (GridInt 1) (grid_cols a) = GridInt gc →
  0 < gr → 0 < gc →
  (0 < Z.of_nat (nrows m) < gr ∨ 0 < Z.of_nat (arr_ncols m) < gc →
     draw_matrix a w = (w, Raise (NameError "effective_cols")))
  ∧ (nrows m = 0%nat → arr_ncols m = 0%nat → valid_input a m gr gc).
Proof.
  intros Hm Hmode Hgr Hgc Hgr0 Hgc0. split.
  - intros Hfine.
    apply (non_dividing_raises_NameError a w m gr gc); try done.
    destruct Hfine as [H|H]; [left | right]; rewrite Z.mod_small; lia.
  - intros Hr Hc. split; try done; rewrite ?Hr, ?Hc; by rewrite Z.mod_0_l by lia.
Qed.

Lemma grid_finer_than_matrix_is_rejected_witness :
  draw_matrix (mkArgs (Ndarray2 mixed_2x2) "color" (Some (GridInt 3)) None
                 (6%positive, 6%positive) None None None None) world_2x2
  = (world_2x2, Raise (NameError "effective_cols")).
Proof.
  apply (proj1 (grid_finer_than_matrix_is_rejected
                  (mkArgs (Ndarray2 mixed_2x2) "color" (Some (GridInt 3)) None
                          (6%positive, 6%positive) None None None None)
                  mixed_2x2 3 1 world_2x2 eq_refl (or_intror eq_refl) eq_refl eq_refl
                  ltac:(lia) ltac:(lia))).
  left. unfold nrows. simpl. lia.
Defined.

(** * The calls that should have drawn *)

(** C1.  [draw_matrix(np.array([[1, -2], [0, 4]]), grid_rows=2, grid_cols=2)]
    in a fresh process: the call raises the [TypeError] of line 103 before
    the loops of lines 122 to 154 take any slice.  The figure and its 2x2
    [image_objects] array exist, every entry of the array is still [None],
    there is no image object, and no cell of any handle shows a tile. *)
Theorem tiled_call_raises_before_slicing :
  (draw_matrix args_mixed_binary initial_world).2
  = Raise (TypeError "cannot create weak reference to 'tuple' object")
  ∧ fignums (draw_matrix args_mixed_binary initial_world).1 = [1]
  ∧ objects_of handle_2x2 (draw_matrix args_mixed_binary initial_world).1
    = [[None; None]; [None; None]]
  ∧ images (draw_matrix args_mixed_binary initial_world).1 = ∅
  ∧ ∀ h i j img,
      ¬ cell_shows h (draw_matrix args_mixed_binary initial_world).1 i j img.
Proof.
  assert (images (draw_matrix args_mixed_binary initial_world).1 = ∅) as Himg
    by (vm_compute; reflexivity).
  split; [vm_compute; reflexivity|]. split; [vm_compute; reflexivity|].
  split; [vm_compute; reflexivity|]. split; [exact Himg|].
  intros h i j img (im & _ & Him). rewrite Himg in Him.
  by rewrite lookup_empty in Him.
Qed.

(** C3.  [draw_matrix(np.array([[1, 2], [3, 4]]))], mode 'binary', in a
    fresh process: every element is positive, yet the call raises the
    [TypeError] of line 103 before line 115; no image object exists
    afterwards, the one cell of the new figure is empty and no cell of any
    handle shows a tile, light or dark. *)
Theorem positive_binary_call_shows_no_tile :
  (draw_matrix args_positive_binary initial_world).2
  = Raise (TypeError "cannot create weak reference to 'tuple' object")
  ∧ images (draw_matrix args_positive_binary initial_world).1 = ∅
  ∧ image_at (created_handle 1 1 (figsize args_positive_binary) initial_world)
      (draw_matrix args_positive_binary initial_world).1 0 0 = None
  ∧ ∀ h i j img,
      ¬ cell_shows h (draw_matrix args_positive_binary initial_world).1 i j img.
Proof.
  assert (images (draw_matrix args_positive_binary initial_world).1 = ∅) as Himg
    by (vm_compute; reflexivity).
  split; [vm_compute; reflexivity|]. split; [exact Himg|].
  split; [vm_compute; reflexivity|].
  intros h i j img (im & _ & Him). rewrite Himg in Him.
  by rewrite lookup_empty in Him.
Qed.

(** C4.  [draw_matrix(np.array([[1, -2], [0, 4]]), mode='color', grid_rows=2,
    grid_cols=2)] in a fresh process: the call raises the [TypeError] of
    line 103 before lines 136 to 154.  The least and the greatest element
    of the matrix are -2 and 4, but [np.min] and [np.max] are never taken:
    no image object exists afterwards and no cell of any handle shows a
    tile, so nothing is drawn with that range, or with any range or
    palette. *)
Theorem color_call_raises_before_scaling :
  (draw_matrix args_mixed_color initial_world).2
  = Raise (TypeError "cannot create weak reference to 'tuple' object")
  ∧ np_min mixed_2x2 = Ok (-2) ∧ np_max mixed_2x2 = Ok 4
  ∧ images (draw_matrix args_mixed_color initial_world).1 = ∅
  ∧ ∀ h i j img,
      ¬ cell_shows h (draw_matrix args_mixed_color initial_world).1 i j img.
Proof.
  assert (images (draw_matrix args_mixed_color initial_world).1 = ∅) as Himg
    by (vm_compute; reflexivity).
  split; [vm_compute; reflexivity|]. split; [reflexivity|]. split; [reflexivity|].
  split; [exact Himg|].
  intros h i j img (im & _ & Him). rewrite Himg in Him.
  by rewrite lookup_empty in Him.
Qed.

(** * The empty title *)







